(** * Mermaid Studio: the render / validate / recover pipeline

    A shallow embedding of the editor's React components and of the
    generative-service client:

    - [Js]       : JavaScript strings (UTF-16 code units) and thrown values;
    - [Gemini]   : [services/gemini.ts] (capability flag, guards, [cleanResponse]);
    - [Renderer] : the [MermaidRenderer] component (render effect, pan and zoom);
    - [App]      : the [App] component (source, error, log, correction loop)
                   as a transition system over user and completion events;
    - [Spec]     : the predicates the statements are written with;
    - [Sample]   : concrete scenarios;
    - [Page]     : texts and numbers the components put on the page;
    - [Props]    : further predicates;
    - [Doubles]  : the zoom buttons with the rounding of doubles written out.

    Asynchrony: an [await] splits a function in two; the second half runs
    when an event reports how the awaited call settled.  The engine and the
    generative service are the environment: their answers come with those
    events.

    Numbers: JavaScript numbers are IEEE-754 doubles.  The viewport arithmetic
    is embedded over the rationals [Q]; comparisons, clamps and constants are
    the source's.  In [Renderer] rounding is abstracted away, which bounds,
    clamps and monotonicity do not depend on; [Doubles] keeps it, as a
    rounding function with a bounded relative error. *)

From Stdlib Require Import List String Ascii Arith NArith QArith Qminmax Qabs Qround Bool Lia Lqa.
Import ListNotations.

(* ================================================================== *)
(** ** JavaScript values *)

Module Js.

(** A JavaScript string is a sequence of UTF-16 code units. *)
Definition jsstring : Type := list N.

(** An ASCII literal as a JavaScript string. *)
Definition js (s : string) : jsstring :=
  map N_of_ascii (list_ascii_of_string s).
Arguments js s%_string.

(** [a === b] on strings. *)
Fixpoint eqb (a b : jsstring) : bool :=
  match a, b with
  | [], [] => true
  | x :: a', y :: b' => N.eqb x y && eqb a' b'
  | _, _ => false
  end.

(** [Object.is] on [string | null] (also [string | undefined]). *)
Definition opt_eqb (a b : option jsstring) : bool :=
  match a, b with
  | None, None => true
  | Some x, Some y => eqb x y
  | _, _ => false
  end.

(** Truthiness of a string: every string but the empty one. *)
Definition truthy (s : jsstring) : bool :=
  match s with [] => false | _ :: _ => true end.

(** Truthiness of [string | null]. *)
Definition opt_truthy (o : option jsstring) : bool :=
  match o with Some s => truthy s | None => false end.

(** [o || d] for [o : string | undefined]. *)
Definition or_else (o : option jsstring) (d : jsstring) : jsstring :=
  match o with
  | Some s => if truthy s then s else d
  | None => d
  end.

(** ECMA-262 WhiteSpace and LineTerminator code points: what
    [String.prototype.trim] removes. *)
Definition isWhiteSpace (c : N) : bool :=
  (N.eqb c 0x09 || N.eqb c 0x0A || N.eqb c 0x0B || N.eqb c 0x0C ||
   N.eqb c 0x0D || N.eqb c 0x20 || N.eqb c 0xA0 || N.eqb c 0x1680 ||
   (N.leb 0x2000 c && N.leb c 0x200A) ||
   N.eqb c 0x2028 || N.eqb c 0x2029 || N.eqb c 0x202F ||
   N.eqb c 0x205F || N.eqb c 0x3000 || N.eqb c 0xFEFF)%N.

Fixpoint trimStart (s : jsstring) : jsstring :=
  match s with
  | [] => []
  | c :: s' => if isWhiteSpace c then trimStart s' else s
  end.

Definition trimEnd (s : jsstring) : jsstring := rev (trimStart (rev s)).

(** [s.trim()] *)
Definition trim (s : jsstring) : jsstring := trimEnd (trimStart s).

(** [s.startsWith(p)] *)
Fixpoint startsWith (s p : jsstring) {struct p} : bool :=
  match p, s with
  | [], _ => true
  | _ :: _, [] => false
  | x :: p', y :: s' => N.eqb x y && startsWith s' p'
  end.

(** [s.endsWith(p)] *)
Definition endsWith (s p : jsstring) : bool := startsWith (rev s) (rev p).

(** [s.substring(0, n)] *)
Definition substring0 (n : nat) (s : jsstring) : jsstring := firstn n s.

(** Values that reach a [catch] clause: a thrown string, an instance of
    [Error], or another object, of which only the (string) fields
    [message] and [str] are read. *)
Inductive Thrown : Type :=
| ThrowString (s : jsstring)
| ThrowError (message : jsstring)
| ThrowObject (message str : option jsstring).

(** [e.message] *)
Definition message_of (e : Thrown) : option jsstring :=
  match e with
  | ThrowString _ => None
  | ThrowError m => Some m
  | ThrowObject m _ => m
  end.

End Js.

Import Js.

(* ================================================================== *)
(** ** services/gemini.ts *)

Inductive DiagramType : Type :=
| Auto | Flowchart | Sequence | Class | State | ERRelationship
| Gantt | UserJourney | Mindmap | Pie | Gitgraph.

Definition DiagramType_text (t : DiagramType) : jsstring :=
  match t with
  | Auto => js "Auto"
  | Flowchart => js "Flowchart"
  | Sequence => js "Sequence"
  | Class => js "Class"
  | State => js "State"
  | ERRelationship => js "ER Relationship"
  | Gantt => js "Gantt"
  | UserJourney => js "User Journey"
  | Mindmap => js "Mindmap"
  | Pie => js "Pie"
  | Gitgraph => js "Gitgraph"
  end.

Module Gemini.

(** What is sent to [ai.models.generateContent].  The prompt text built
    around the arguments is fixed; a request is identified by the
    arguments interpolated into it. *)
Inductive Request : Type :=
| GenerateRequest (prompt : jsstring) (type : DiagramType)
| FixRequest (brokenCode errorMessage : jsstring).

(** How the service call settles: a response whose [text] may be
    undefined, or an exception. *)
Inductive ServiceResult : Type :=
| Responded (text : option jsstring)
| ServiceThrew (e : Thrown).

(** An [async] function up to its first [await]: it has either thrown
    already (the promise is rejected without any request) or it waits for
    the service. *)
Inductive Started : Type :=
| Rejected (e : Thrown)
| Awaiting (req : Request).

Section Configured.

(** [process.env.API_KEY], replaced at build time. *)
Variable apiKey : option jsstring.

(** [!!(apiKey && apiKey.length > 0 && apiKey !== 'undefined')] *)
Definition isAIEnabled : bool :=
  opt_truthy apiKey &&
  match apiKey with
  | Some k => Nat.ltb 0 (List.length k) && negb (eqb k (js "undefined"))
  | None => false
  end.

(** [ai] is the client when [isAIEnabled], [null] otherwise; only
    whether it is null is observed. *)
Definition ai_is_null : bool := negb isAIEnabled.

Definition disabledError : Thrown :=
  ThrowError (js "AI features are disabled. API Key is missing.").

Definition generateMermaidCode (prompt : jsstring) (type : DiagramType)
  : Started :=
  if ai_is_null || negb isAIEnabled then Rejected disabledError
  else Awaiting (GenerateRequest prompt type).

Definition fixMermaidCode (brokenCode errorMessage : jsstring) : Started :=
  if ai_is_null || negb isAIEnabled then Rejected disabledError
  else Awaiting (FixRequest brokenCode errorMessage).

End Configured.

(** Strip a leading and a trailing markdown fence. *)
Definition cleanResponse (text : jsstring) : jsstring :=
  let cleaned := trim text in
  let cleaned :=
    if startsWith cleaned (js "```mermaid")
    then skipn (List.length (js "```mermaid")) cleaned
    else if startsWith cleaned (js "```")
    then skipn (List.length (js "```")) cleaned
    else cleaned in
  let cleaned :=
    if endsWith cleaned (js "```")
    then firstn (List.length cleaned - List.length (js "```")) cleaned
    else cleaned in
  trim cleaned.

(** The rest of [generateMermaidCode] / [fixMermaidCode] once the service
    call has settled: [cleanResponse(response.text || '')], or the
    exception rethrown. *)
Definition resume (r : ServiceResult) : Thrown + jsstring :=
  match r with
  | Responded text => inr (cleanResponse (or_else text []))
  | ServiceThrew e => inl e
  end.

End Gemini.

(* ================================================================== *)
(** ** components/MermaidRenderer.tsx *)

Module Renderer.

(** How [await mermaid.parse(code)] followed by
    [await mermaid.render(id, code)] settles: the rendered markup, or
    whatever either call threw. *)
Inductive CompileOutcome : Type :=
| Rendered (svg : jsstring)
| Threw (error : Thrown).

(** *** Removal of every [max-width] declaration from the markup

    The source replaces, globally and by the empty string, the matches
    of the regular expression made of the literal [max-width:], then
    [\s*], then one or more code units other than a semicolon and a
    double quote (the value class), then a semicolon. *)

(** The value class: neither a semicolon (59) nor a double quote (34). *)
Definition inValueClass (c : N) : bool :=
  negb (N.eqb c 59 || N.eqb c 34).

(** Length of the longest prefix inside the value class. *)
Fixpoint valueRun (s : jsstring) : nat :=
  match s with
  | [] => 0%nat
  | c :: s' => if inValueClass c then S (valueRun s') else 0%nat
  end.

(** Length of the match of that expression anchored at the start of
    [s], if any.  White space belongs to the value class and the
    semicolon does not, so every way of splitting between [\s*] and the
    value covers the same text: the whole run of the value class after
    the colon, which must be non-empty and followed by a semicolon. *)
Definition matchMaxWidth (s : jsstring) : option nat :=
  if startsWith s (js "max-width:") then
    let rest := skipn (List.length (js "max-width:")) s in
    let n := valueRun rest in
    match n, skipn n rest with
    | S _, c :: _ =>
        if N.eqb c 59 then Some (List.length (js "max-width:") + n + 1)%nat
        else None
    | _, _ => None
    end
  else None.

(** Global replacement by the empty string, left to right; [skip] counts
    the code units of the current match still to be dropped. *)
Fixpoint stripMaxWidth (skip : nat) (s : jsstring) : jsstring :=
  match s with
  | [] => []
  | c :: s' =>
      match skip with
      | S k => stripMaxWidth k s'
      | O =>
          match matchMaxWidth (c :: s') with
          | Some (S k) => stripMaxWidth k s'
          | _ => c :: stripMaxWidth 0 s'
          end
      end
  end.

Definition cleanSvg (svg : jsstring) : jsstring := stripMaxWidth 0 svg.

(** *** The message extracted in the [catch] clause of [renderDiagram] *)
Definition errorMessage (error : Thrown) : jsstring :=
  match error with
  | ThrowString s => s
  | ThrowError m => m
  | ThrowObject _ str =>
      match str with
      | Some s => if truthy s then s else js "Unknown rendering error"
      | None => js "Unknown rendering error"
      end
  end.

(** *** Component state *)

Record Point : Type := mkPoint { x : Q; y : Q }.

Record State : Type := mkState {
  svgContent : jsstring;
  pan : Point;
  scale : Q;
  isDragging : bool;
  dragStart : Point            (* the ref's [current] *)
}.

(** The state of a freshly mounted component. *)
Definition initial : State :=
  mkState [] (mkPoint 0 0) 1 false (mkPoint 0 0).

(** One execution of the render effect: the [code] it closed over, the
    [error] its [onSuccess] callback closed over, its own [isMounted]
    variable, and whether [renderDiagram] went past the blank-source guard
    and asked the engine for a compile (the flag stays once the compile
    has settled). *)
Record Run : Type := mkRun {
  run_code : jsstring;
  run_error : option jsstring;
  isMounted : bool;
  run_compiling : bool
}.

(** [!code.trim()] *)
Definition isBlank (code : jsstring) : bool := negb (truthy (trim code)).

(** The effect body: [let isMounted = true; renderDiagram()]. *)
Definition startRun (code : jsstring) (error : option jsstring) : Run :=
  mkRun code error true (negb (isBlank code)).

(** The effect's cleanup: [isMounted = false]. *)
Definition cleanup (r : Run) : Run :=
  mkRun (run_code r) (run_error r) false (run_compiling r).

(** *** Pan and zoom handlers *)

Definition handleMouseDown (clientX clientY : Q) (s : State) : State :=
  mkState (svgContent s) (pan s) (scale s) true
          (mkPoint (clientX - x (pan s)) (clientY - y (pan s))).

Definition handleMouseMove (clientX clientY : Q) (s : State) : State :=
  if negb (isDragging s) then s
  else mkState (svgContent s)
               (mkPoint (clientX - x (dragStart s)) (clientY - y (dragStart s)))
               (scale s) (isDragging s) (dragStart s).

Definition handleMouseUp (s : State) : State :=
  mkState (svgContent s) (pan s) (scale s) false (dragStart s).

Definition setScale (k : Q) (s : State) : State :=
  mkState (svgContent s) (pan s) k (isDragging s) (dragStart s).

Definition setPan (p : Point) (s : State) : State :=
  mkState (svgContent s) p (scale s) (isDragging s) (dragStart s).

Definition setSvgContent (svg : jsstring) (s : State) : State :=
  mkState svg (pan s) (scale s) (isDragging s) (dragStart s).

Definition wheelScale (scale deltaY : Q) : Q :=
  let zoomSensitivity := 0.001 in
  let delta := - deltaY * zoomSensitivity in
  Qmin (Qmax 0.1 (scale + delta)) 5.

Definition handleWheel (deltaY : Q) (s : State) : State :=
  setScale (wheelScale (scale s) deltaY) s.

Definition zoomInScale (s : Q) : Q := Qmin 5 (s * 1.2).
Definition zoomOutScale (s : Q) : Q := Qmax 0.1 (s / 1.2).

Definition zoomIn (s : State) : State := setScale (zoomInScale (scale s)) s.
Definition zoomOut (s : State) : State := setScale (zoomOutScale (scale s)) s.

Definition resetView (s : State) : State :=
  setPan (mkPoint 0 0) (setScale 1 s).

End Renderer.

(* ================================================================== *)
(** ** types.ts *)

Inductive LogLevel : Type := INFO | SUCCESS | WARNING | ERROR.

(** A log entry.  Its [id] ([Math.random]) and [timestamp] ([new Date])
    come from the environment and are never read back by the handlers;
    they are left out. *)
Record LogEntry : Type := mkLog {
  level : LogLevel;
  message : jsstring;
  details : option jsstring
}.

Inductive ViewMode : Type := EDITOR | PREVIEW | SPLIT.

(* ================================================================== *)
(** ** App.tsx *)

Module App.

Import Renderer.

Definition INITIAL_CODE : jsstring :=
  js "graph TD
    A[Start] --> B{Is it working?}
    B -- Yes --> C[Great!]
    B -- No --> D[Debug]
    D -- Manual Fix --> C".

(** A call to the generative service and whether it has settled. *)
Record ServiceCall : Type := mkCall {
  call_request : Gemini.Request;
  call_settled : bool
}.

(** The state of the [App] component, of the [MermaidRenderer] it
    renders, and of the asynchronous work in flight: every execution of
    the render effect so far ([runs], oldest first; a run is named by its
    position) and every service call so far ([calls], likewise). *)
Record State : Type := mkApp {
  code : jsstring;
  logs : list LogEntry;
  error : option jsstring;
  isProcessing : bool;
  viewMode : ViewMode;
  prompt : jsstring;
  showPromptInput : bool;
  selectedDiagramType : DiagramType;
  renderer : Renderer.State;
  runs : list Run;
  calls : list ServiceCall
}.

Definition setCode (v : jsstring) (a : State) : State :=
  mkApp v (logs a) (error a) (isProcessing a) (viewMode a) (prompt a)
        (showPromptInput a) (selectedDiagramType a) (renderer a) (runs a) (calls a).
Definition setLogs (v : list LogEntry) (a : State) : State :=
  mkApp (code a) v (error a) (isProcessing a) (viewMode a) (prompt a)
        (showPromptInput a) (selectedDiagramType a) (renderer a) (runs a) (calls a).
Definition setError (v : option jsstring) (a : State) : State :=
  mkApp (code a) (logs a) v (isProcessing a) (viewMode a) (prompt a)
        (showPromptInput a) (selectedDiagramType a) (renderer a) (runs a) (calls a).
Definition setIsProcessing (v : bool) (a : State) : State :=
  mkApp (code a) (logs a) (error a) v (viewMode a) (prompt a)
        (showPromptInput a) (selectedDiagramType a) (renderer a) (runs a) (calls a).
Definition setViewMode (v : ViewMode) (a : State) : State :=
  mkApp (code a) (logs a) (error a) (isProcessing a) v (prompt a)
        (showPromptInput a) (selectedDiagramType a) (renderer a) (runs a) (calls a).
Definition setPrompt (v : jsstring) (a : State) : State :=
  mkApp (code a) (logs a) (error a) (isProcessing a) (viewMode a) v
        (showPromptInput a) (selectedDiagramType a) (renderer a) (runs a) (calls a).
Definition setShowPromptInput (v : bool) (a : State) : State :=
  mkApp (code a) (logs a) (error a) (isProcessing a) (viewMode a) (prompt a)
        v (selectedDiagramType a) (renderer a) (runs a) (calls a).
Definition setSelectedDiagramType (v : DiagramType) (a : State) : State :=
  mkApp (code a) (logs a) (error a) (isProcessing a) (viewMode a) (prompt a)
        (showPromptInput a) v (renderer a) (runs a) (calls a).
Definition setRenderer (v : Renderer.State) (a : State) : State :=
  mkApp (code a) (logs a) (error a) (isProcessing a) (viewMode a) (prompt a)
        (showPromptInput a) (selectedDiagramType a) v (runs a) (calls a).
Definition setRuns (v : list Run) (a : State) : State :=
  mkApp (code a) (logs a) (error a) (isProcessing a) (viewMode a) (prompt a)
        (showPromptInput a) (selectedDiagramType a) (renderer a) v (calls a).
Definition setCalls (v : list ServiceCall) (a : State) : State :=
  mkApp (code a) (logs a) (error a) (isProcessing a) (viewMode a) (prompt a)
        (showPromptInput a) (selectedDiagramType a) (renderer a) (runs a) v.

(** [setLogs(prev => [...prev, entry])] *)
Definition addLog (l : LogLevel) (msg : jsstring) (det : option jsstring)
           (a : State) : State :=
  setLogs (logs a ++ [mkLog l msg det]) a.

(** *** Callbacks handed to the renderer *)

Definition handleMermaidError (errorMsg : jsstring) (a : State) : State :=
  addLog ERROR (js "Rendering Failed") (Some errorMsg)
         (setError (Some errorMsg) a).

(** [captured] is the [error] of the render in which the callback was
    created ([useCallback] with dependencies [[error, addLog]]). *)
Definition handleMermaidSuccess (captured : option jsstring) (a : State)
  : State :=
  if opt_truthy captured
  then addLog SUCCESS (js "Diagram Rendered Successfully") None
              (setError None a)
  else a.

(** *** The render effect of [MermaidRenderer]

    The preview pane, hence the renderer, is present in the [PREVIEW]
    and [SPLIT] layouts. *)
Definition previewShown (m : ViewMode) : bool :=
  match m with EDITOR => false | PREVIEW | SPLIT => true end.

Definition editorShown (m : ViewMode) : bool :=
  match m with PREVIEW => false | EDITOR | SPLIT => true end.

(** Run the cleanup of the latest execution of the effect. *)
Fixpoint cleanupLatest (rs : list Run) : list Run :=
  match rs with
  | [] => []
  | [r] => [cleanup r]
  | r :: rs' => r :: cleanupLatest rs'
  end.

(** The latest execution of the effect, if any. *)
Definition latest (rs : list Run) : option Run :=
  match rev rs with
  | r :: _ => Some r
  | [] => None
  end.

(** After the handlers of an event have run, React re-renders and
    flushes effects; an event, the render and the flush are taken as one
    step, nothing else happening in between.  The render effect has
    dependencies [[code, onError, onSuccess]]: [onError] never changes,
    [onSuccess] is a new function exactly when [error] changed.  When a
    dependency differs from the one the latest execution saw (or the
    component has just been mounted), that execution is cleaned up and
    the effect runs again. *)
Definition flushEffects (a : State) : State :=
  if previewShown (viewMode a) then
    match latest (runs a) with
    | Some r =>
        if isMounted r && eqb (run_code r) (code a)
           && opt_eqb (run_error r) (error a)
        then a
        else setRuns (cleanupLatest (runs a) ++ [startRun (code a) (error a)]) a
    | None => setRuns (runs a ++ [startRun (code a) (error a)]) a
    end
  else a.

(** [renderDiagram] in run [i], from the point where its two awaits have
    settled with outcome [o]; the guard before them is [run_compiling]. *)
Definition renderDiagram (i : nat) (o : CompileOutcome) (a : State) : State :=
  match nth_error (runs a) i with
  | Some r =>
      if run_compiling r then
        match o with
        | Rendered svg =>
            if isMounted r then
              let cleanedSvg := cleanSvg svg in
              let a := setRenderer (setSvgContent cleanedSvg (renderer a)) a in
              let a := handleMermaidSuccess (run_error r) a in
              let a := setRenderer (setPan (mkPoint 0 0) (renderer a)) a in
              setRenderer (setScale 1 (renderer a)) a
            else a
        | Threw e =>
            if isMounted r then handleMermaidError (errorMessage e) a
            else a
        end
      else a
  | None => a
  end.

Section Configured.

Variable apiKey : option jsstring.

(** *** [handleGenerate] *)

Definition handleGenerate_catch (e : Thrown) (a : State) : State :=
  setIsProcessing false
    (addLog ERROR (js "Generation Failed")
            (Some (or_else (message_of e) (js "Unknown error"))) a).

Definition handleGenerate (a : State) : State :=
  if negb (truthy (trim (prompt a))) then a
  else
    let a := setIsProcessing true a in
    let a := addLog INFO (js "AI Generating Diagram...")
               (Some (js "Type: " ++ DiagramType_text (selectedDiagramType a)
                      ++ [10%N] ++ js "Prompt: " ++ prompt a)) a in
    match Gemini.generateMermaidCode apiKey (prompt a) (selectedDiagramType a) with
    | Gemini.Rejected e => handleGenerate_catch e a
    | Gemini.Awaiting req => setCalls (calls a ++ [mkCall req false]) a
    end.

Definition handleGenerate_resume (r : Gemini.ServiceResult) (a : State) : State :=
  match Gemini.resume r with
  | inr newCode =>
      let a := setCode newCode a in
      let a := addLog SUCCESS (js "Generation Complete") None a in
      let a := setShowPromptInput false a in
      let a := setPrompt [] a in
      setIsProcessing false a
  | inl e => handleGenerate_catch e a
  end.

(** *** [handleFix] *)

Definition handleFix_catch (e : Thrown) (a : State) : State :=
  setIsProcessing false
    (addLog ERROR (js "Fix Failed")
            (Some (or_else (message_of e) (js "Unknown error"))) a).

Definition handleFix (a : State) : State :=
  match error a with
  | Some err =>
      if negb (truthy err) then a
      else
        let a := setIsProcessing true a in
        let a := addLog INFO (js "AI Attempting to Fix Syntax...")
                   (Some (js "Error context: " ++ substring0 100 err
                          ++ js "...")) a in
        match Gemini.fixMermaidCode apiKey (code a) err with
        | Gemini.Rejected e => handleFix_catch e a
        | Gemini.Awaiting req => setCalls (calls a ++ [mkCall req false]) a
        end
  | None => a
  end.

Definition handleFix_resume (r : Gemini.ServiceResult) (a : State) : State :=
  match Gemini.resume r with
  | inr fixedCode =>
      let a := setCode fixedCode a in
      let a := addLog SUCCESS (js "Fix Applied")
                 (Some (js "The AI has updated the code. Verifying render...")) a in
      setIsProcessing false a
  | inl e => handleFix_catch e a
  end.

(** Mark call [k] as settled. *)
Fixpoint settle (k : nat) (cs : list ServiceCall) : list ServiceCall :=
  match cs, k with
  | [], _ => []
  | c :: cs', O => mkCall (call_request c) true :: cs'
  | c :: cs', S k' => c :: settle k' cs'
  end.

Definition serviceSettled (k : nat) (r : Gemini.ServiceResult) (a : State)
  : State :=
  match nth_error (calls a) k with
  | Some c =>
      if call_settled c then a
      else
        let a := setCalls (settle k (calls a)) a in
        match call_request c with
        | Gemini.GenerateRequest _ _ => handleGenerate_resume r a
        | Gemini.FixRequest _ _ => handleFix_resume r a
        end
  | None => a
  end.

(** *** Events

    What the user does to an element on the page, and the settling of
    asynchronous work. *)
Inductive Event : Type :=
| EditCode (value : jsstring)              (* the textarea's onChange *)
| RenderSettled (run : nat) (o : CompileOutcome)
| MouseDown (clientX clientY : Q)
| MouseMove (clientX clientY : Q)
| MouseUp
| MouseLeave
| Wheel (deltaY : Q)
| ClickZoomIn
| ClickZoomOut
| ClickResetView
| ClickFixWithAI                           (* header button *)
| ClickAutoFix                             (* button of the error toast *)
| ClickGenerate                            (* header button: toggles the prompt bar *)
| EditPrompt (value : jsstring)
| SelectDiagramType (t : DiagramType)
| PressEnterInPrompt
| ClickCreate
| ServiceSettled (call : nat) (r : Gemini.ServiceResult)
| ClickViewMode (m : ViewMode)
| ClickClear.

Definition onRenderer (f : Renderer.State -> Renderer.State) (a : State)
  : State :=
  if previewShown (viewMode a) then setRenderer (f (renderer a)) a else a.

(** Switching layout: leaving the preview unmounts the renderer (its
    effect is cleaned up and its state is lost); showing it again
    mounts a fresh one. *)
Definition switchView (m : ViewMode) (a : State) : State :=
  match previewShown (viewMode a), previewShown m with
  | true, false =>
      setViewMode m (setRenderer Renderer.initial
                       (setRuns (cleanupLatest (runs a)) a))
  | false, true => setViewMode m (setRenderer Renderer.initial a)
  | _, _ => setViewMode m a
  end.

(** The handlers an event runs.  An element that is not rendered, or is
    disabled, delivers no event. *)
Definition handle (ev : Event) (a : State) : State :=
  match ev with
  | EditCode v => if editorShown (viewMode a) then setCode v a else a
  | RenderSettled i o => renderDiagram i o a
  | MouseDown cx cy => onRenderer (handleMouseDown cx cy) a
  | MouseMove cx cy => onRenderer (handleMouseMove cx cy) a
  | MouseUp | MouseLeave => onRenderer handleMouseUp a
  | Wheel dy => onRenderer (handleWheel dy) a
  | ClickZoomIn => onRenderer zoomIn a
  | ClickZoomOut => onRenderer zoomOut a
  | ClickResetView => onRenderer resetView a
  | ClickFixWithAI =>
      if Gemini.isAIEnabled apiKey
         && negb (negb (opt_truthy (error a)) || isProcessing a)
      then handleFix a else a
  | ClickAutoFix =>
      if previewShown (viewMode a) && opt_truthy (error a)
         && Gemini.isAIEnabled apiKey
      then handleFix a else a
  | ClickGenerate =>
      if Gemini.isAIEnabled apiKey && negb (isProcessing a)
      then setShowPromptInput (negb (showPromptInput a)) a else a
  | EditPrompt v =>
      if showPromptInput a && Gemini.isAIEnabled apiKey && negb (isProcessing a)
      then setPrompt v a else a
  | SelectDiagramType t =>
      if showPromptInput a && Gemini.isAIEnabled apiKey && negb (isProcessing a)
      then setSelectedDiagramType t a else a
  | PressEnterInPrompt =>
      if showPromptInput a && Gemini.isAIEnabled apiKey && negb (isProcessing a)
      then handleGenerate a else a
  | ClickCreate =>
      if showPromptInput a && Gemini.isAIEnabled apiKey && negb (isProcessing a)
      then handleGenerate a else a
  | ServiceSettled k r => serviceSettled k r a
  | ClickViewMode m => switchView m a
  | ClickClear => setLogs [] a
  end.

(** One event: its handlers, then the effects. *)
Definition step (a : State) (ev : Event) : State :=
  flushEffects (handle ev a).

Definition run (evs : list Event) (a : State) : State :=
  fold_left step evs a.

(** Every state passed through, the first one included. *)
Fixpoint trace (a : State) (evs : list Event) : list State :=
  match evs with
  | [] => [a]
  | ev :: evs' => a :: trace (step a ev) evs'
  end.

(** The page once mounted: the renderer has run its effect on
    [INITIAL_CODE], the application has logged its mode. *)
Definition init : State :=
  mkApp INITIAL_CODE
        [if negb (Gemini.isAIEnabled apiKey)
         then mkLog INFO (js "System Ready (Offline Mode)")
                (Some (js "AI features are disabled because no API Key was found. Editor is fully functional."))
         else mkLog INFO (js "System Ready") (Some (js "AI features are enabled."))]
        None false SPLIT [] false Auto
        Renderer.initial
        [startRun INITIAL_CODE None]
        [].

Inductive reachable : State -> Prop :=
| reach_init : reachable init
| reach_step a ev : reachable a -> reachable (step a ev).

(** Service calls that have not settled yet. *)
Definition outstanding (a : State) : list ServiceCall :=
  filter (fun c => negb (call_settled c)) (calls a).

Definition isFixRequest (c : ServiceCall) : bool :=
  match call_request c with
  | Gemini.FixRequest _ _ => true
  | Gemini.GenerateRequest _ _ => false
  end.

(** Number of compiles requested from the engine so far. *)
Definition compilesRequested (a : State) : nat :=
  List.length (filter run_compiling (runs a)).

End Configured.

End App.

(* ================================================================== *)
(** ** Predicates used in the statements *)

Module Spec.

Import Renderer App.

Definition unmounted (r : Run) : Prop := isMounted r = false.

(** A run asked the engine for a compile exactly when its source is not
    blank. *)
Definition guarded (r : Run) : Prop :=
  run_compiling r = negb (isBlank (run_code r)).

(** Effects are flushed: all executions of the render effect but the
    latest have been cleaned up; the latest is live exactly when the
    renderer is on the page, and then it saw the current [code] and
    [error]. *)
Definition effectsFlushed (a : State) : Prop :=
  exists old r,
    runs a = old ++ [r] /\ Forall unmounted old /\
    isMounted r = previewShown (viewMode a) /\
    (previewShown (viewMode a) = true ->
     run_code r = code a /\ run_error r = error a) /\
    Forall guarded (runs a).

(** The same between the handlers of an event and the flush that follows. *)
Definition effectsPending (a : State) : Prop :=
  exists old r,
    runs a = old ++ [r] /\ Forall unmounted old /\
    (previewShown (viewMode a) = false -> isMounted r = false) /\
    Forall guarded (runs a).

(** Run [i] has been superseded: its [isMounted] is false. *)
Definition stale (a : State) (i : nat) : Prop :=
  exists r, nth_error (runs a) i = Some r /\ isMounted r = false.

(** Run [i] is the pipeline's current compile: it asked the engine for a
    compile and has not been cleaned up. *)
Definition current (a : State) (i : nat) : Prop :=
  exists r, nth_error (runs a) i = Some r /\
            isMounted r = true /\ run_compiling r = true.

(** Cleaned-up runs of [rs] are still there, cleaned up, in [rs']. *)
Definition aged (rs rs' : list Run) : Prop :=
  forall i r, nth_error rs i = Some r -> isMounted r = false ->
              exists r', nth_error rs' i = Some r' /\ isMounted r' = false.

(** The viewport transform is the identity: no offset, scale 1. *)
Definition viewReset (a : State) : Prop :=
  pan (renderer a) = mkPoint 0 0 /\ scale (renderer a) = 1.

(** Every code unit of [s] is white space ([s] may be empty). *)
Definition whitespaceOnly (s : jsstring) : Prop :=
  Forall (fun c => isWhiteSpace c = true) s.

(** The clamp interval of the zoom factor. *)
Definition scaleInBounds (k : Q) : Prop := 0.1 <= k /\ k <= 5.

End Spec.

(* ================================================================== *)
(** ** Concrete scenarios *)

Module Sample.

Import Renderer App.

Definition key : option jsstring := Some (js "k-123").

Definition malformed : jsstring :=
  js "graph TD
A->>>B".

Definition otherSource : jsstring :=
  js "graph LR
A-->B".

Definition svgA : jsstring := js "<svg id='a' style='max-width: 640px;'></svg>".
Definition svgB : jsstring := js "<svg id='b'></svg>".

Definition parseError : Thrown :=
  ThrowError (js "Parse error on line 2").

(** The sample diagram is displayed, then the source is replaced by a
    malformed one whose compile fails: an error is shown, and since
    [error] changed the effect has run again. *)
Definition failed : State :=
  run key [RenderSettled 0 (Rendered svgA);
           EditCode malformed;
           RenderSettled 1 (Threw parseError)]
      (init key).

(** From there the user has pressed Auto-Fix once: a call to the
    correction service is outstanding. *)
Definition fixing : State := step key failed ClickAutoFix.

(** A toy number format for the scenarios in floating point: the
    multiples of 2^-56, every number rounded down to the next one. *)
Definition chop (x : Q) : Q :=
  Qfloor (x * 72057594037927936) # 72057594037927936.

End Sample.

(* ================================================================== *)
(** ** What the components put on the page *)

Module Page.

Import Renderer App.

(** [Math.round(x)]: the nearest integer, halves going up. *)
Definition Math_round (q : Q) : Z := Qfloor (q + (1 # 2)).

(** The number shown between the zoom buttons, before the percent sign:
    [Math.round(scale * 100)]. *)
Definition zoomLabel (s : Renderer.State) : Z := Math_round (scale s * 100).

(** The message of the error toast:
    [error.substring(0, 150)] followed by three dots when
    [error.length > 150]. *)
Definition toastText (error : jsstring) : jsstring :=
  substring0 150 error
  ++ (if Nat.ltb 150 (List.length error) then js "..." else []).

(** The error toast is rendered inside the preview pane, under
    [error && ...]. *)
Definition toastShown (a : App.State) : bool :=
  previewShown (viewMode a) && opt_truthy (error a).

(** The details of the entry [handleFix] logs first:
    the first hundred code units of the error between fixed words. *)
Definition fixContext (error : jsstring) : jsstring :=
  js "Error context: " ++ substring0 100 error ++ js "...".

End Page.

(* ================================================================== *)
(** ** Further predicates *)

Module Props.

Import Renderer App.

(** [s] neither starts nor ends with white space. *)
Definition tight (s : jsstring) : Prop :=
  trimStart s = s /\ trimStart (rev s) = rev s.

(** Some suffix of [s] begins with a match of the max-width expression. *)
Definition hasDeclaration (s : jsstring) : Prop :=
  exists pre t, s = pre ++ t /\ matchMaxWidth t <> None.

(** The pointer is moved through [pts], in order. *)
Definition moveThrough (pts : list (Q * Q)) (s : Renderer.State)
  : Renderer.State :=
  fold_left (fun s p => handleMouseMove (fst p) (snd p) s) pts s.

(** [l] is [l'] with entries added at the end. *)
Definition extends (l l' : list LogEntry) : Prop :=
  exists more, l' = l ++ more.

(** The button of the error toast is never pressed in [evs]. *)
Definition noAutoFix (evs : list Event) : Prop :=
  Forall (fun ev => ev <> ClickAutoFix) evs.

(** [isProcessing] tells whether a call is outstanding, and at most one
    is. *)
Definition singleFlight (a : App.State) : Prop :=
  List.length (outstanding a) = if isProcessing a then 1%nat else 0%nat.

(** The events whose handlers start or settle a service call. *)
Definition touchesCalls (ev : Event) : bool :=
  match ev with
  | ClickFixWithAI | ClickAutoFix | PressEnterInPrompt | ClickCreate
  | ServiceSettled _ _ => true
  | _ => false
  end.

End Props.

(* ================================================================== *)
(** ** The zoom buttons in floating point *)

(** [zoomIn] and [zoomOut] once more, with the rounding of the source's
    doubles written out: a numeric literal denotes the double nearest to
    it, and a product or a quotient is the double nearest to the exact
    result.  [Math.min] and [Math.max] return one of their arguments, and
    5 is a double. *)
Module Doubles.

Section Rounding.

(** [fl x]: the double nearest to [x]. *)
Variable fl : Q -> Q.

(** [Math.min(5, s * 1.2)] *)
Definition zoomInScale (s : Q) : Q := Qmin 5 (fl (s * fl 1.2)).

(** [Math.max(0.1, s / 1.2)] *)
Definition zoomOutScale (s : Q) : Q := Qmax (fl 0.1) (fl (s / fl 1.2)).

End Rounding.

(** [fl] rounds with a relative error of at most [u] between 1/20 and 8,
    where the zoom arithmetic takes place.  Rounding to the nearest double
    does so with u = 2^-53: the range is far from overflow and
    underflow. *)
Definition roundsWithin (fl : Q -> Q) (u : Q) : Prop :=
  forall x, 1 # 20 <= x -> x <= 8 -> Qabs (fl x - x) <= u * x.

End Doubles.

(* ================================================================== *)
(** * Properties *)

Import Renderer App Spec.

(** ** The embedding at concrete inputs *)

Example trim_spaces_and_newlines :
  trim (js "  graph TD
 ") = js "graph TD".
Proof. reflexivity. Qed.

Example trim_no_break_space : trim [0xA0%N; 65%N; 0x2003%N; 0xFEFF%N] = [65%N].
Proof. reflexivity. Qed.

Example cleanResponse_tagged_fence :
  Gemini.cleanResponse (js "```mermaid
graph TD
A-->B
```") = js "graph TD
A-->B".
Proof. reflexivity. Qed.

Example cleanResponse_plain_fence :
  Gemini.cleanResponse (js " ```graph LR``` ") = js "graph LR".
Proof. reflexivity. Qed.

Example cleanResponse_no_fence :
  Gemini.cleanResponse (js "pie title Pets") = js "pie title Pets".
Proof. reflexivity. Qed.

Example cleanSvg_strips_declaration :
  cleanSvg (js "<svg style='max-width: 640px; color: red'>")
  = js "<svg style=' color: red'>".
Proof. reflexivity. Qed.

Example cleanSvg_strips_every_declaration :
  cleanSvg (js "max-width:1px;a;max-width:	2px;b") = js "a;b".
Proof. reflexivity. Qed.

Example cleanSvg_needs_a_value :
  cleanSvg (js "max-width:;x") = js "max-width:;x".
Proof. reflexivity. Qed.

Example errorMessage_of_object_without_str :
  errorMessage (ThrowObject (Some (js "boom")) None)
  = js "Unknown rendering error".
Proof. reflexivity. Qed.

Example isAIEnabled_of_undefined_literal :
  Gemini.isAIEnabled (Some (js "undefined")) = false.
Proof. reflexivity. Qed.

Example failure_then_recompile :
  error Sample.failed = Some (js "Parse error on line 2") /\
  map isMounted (runs Sample.failed) = [false; false; true] /\
  map level (logs Sample.failed) = [INFO; ERROR] /\
  svgContent (renderer Sample.failed) = js "<svg id='a' style=''></svg>".
Proof. repeat split; reflexivity. Qed.

(** ** The max-width expression *)

Lemma whiteSpace_inValueClass (c : N) :
  isWhiteSpace c = true -> inValueClass c = true.
Proof.
  unfold inValueClass. intros H.
  destruct (N.eqb c 59) eqn:E1; [apply N.eqb_eq in E1; now subst|].
  destruct (N.eqb c 34) eqn:E2; [apply N.eqb_eq in E2; now subst|].
  reflexivity.
Qed.

Lemma valueRun_app (val rest : jsstring) :
  Forall (fun c => inValueClass c = true) val ->
  valueRun (val ++ 59%N :: rest) = List.length val.
Proof.
  induction 1 as [|c val Hc _ IH]; simpl; [reflexivity|].
  now rewrite Hc, IH.
Qed.

Lemma startsWith_app (p t : jsstring) : startsWith (p ++ t) p = true.
Proof.
  induction p as [|c p IH]; simpl; [reflexivity|].
  now rewrite N.eqb_refl, IH.
Qed.

Lemma skipn_length_app (p t : jsstring) : skipn (List.length p) (p ++ t) = t.
Proof. induction p as [|c p IH]; simpl; auto. Qed.

Lemma startsWith_split (s p : jsstring) :
  startsWith s p = true -> s = p ++ skipn (List.length p) s.
Proof.
  revert s. induction p as [|c p IH]; intros [|d s]; simpl; try discriminate; auto.
  rewrite andb_true_iff, N.eqb_eq. intros [-> H]. f_equal. now apply IH.
Qed.

Lemma valueRun_split (s : jsstring) :
  Forall (fun c => inValueClass c = true) (firstn (valueRun s) s).
Proof.
  induction s as [|c s IH]; simpl; [constructor|].
  destruct (inValueClass c) eqn:E; simpl; [now constructor|constructor].
Qed.

(** [matchMaxWidth] accepts exactly the strings that begin with a match
    of the expression: [max-width:], white space, a non-empty value, a
    semicolon; and it returns the length of that match. *)
Lemma matchMaxWidth_complete (ws val rest : jsstring) :
  whitespaceOnly ws ->
  Forall (fun c => inValueClass c = true) val -> val <> [] ->
  matchMaxWidth (js "max-width:" ++ ws ++ val ++ 59%N :: rest)
  = Some (List.length (js "max-width:" ++ ws ++ val ++ [59%N])).
Proof.
  intros Hws Hval Hne. unfold matchMaxWidth.
  rewrite startsWith_app, skipn_length_app.
  assert (Hrun : Forall (fun c => inValueClass c = true) (ws ++ val)).
  { apply Forall_app; split; [|assumption].
    eapply Forall_impl; [|exact Hws]. apply whiteSpace_inValueClass. }
  cbv zeta.
  rewrite (app_assoc ws val), (valueRun_app _ _ Hrun).
  destruct (List.length (ws ++ val)) eqn:L.
  - destruct ws, val; simpl in L; congruence.
  - rewrite <- L, skipn_length_app, N.eqb_refl.
    f_equal. rewrite !length_app. simpl. lia.
Qed.

Lemma matchMaxWidth_sound (s : jsstring) (n : nat) :
  matchMaxWidth s = Some n ->
  exists val rest,
    s = js "max-width:" ++ val ++ 59%N :: rest /\
    val <> [] /\ Forall (fun c => inValueClass c = true) val /\
    n = List.length (js "max-width:" ++ val ++ [59%N]).
Proof.
  unfold matchMaxWidth. cbv zeta.
  destruct (startsWith s (js "max-width:")) eqn:P; [|discriminate].
  apply startsWith_split in P.
  set (rest := skipn (List.length (js "max-width:")) s) in *.
  pose proof (valueRun_split rest) as Hval.
  pose proof (firstn_skipn (valueRun rest) rest) as Hsplit.
  destruct (valueRun rest) as [|m] eqn:R; [discriminate|].
  destruct (skipn (S m) rest) as [|c tl] eqn:K; [discriminate|].
  destruct (N.eqb c 59) eqn:C; [|discriminate]. apply N.eqb_eq in C. subst c.
  intros [= <-].
  exists (firstn (S m) rest), tl. repeat split.
  - now rewrite Hsplit.
  - destruct rest; [discriminate|]. discriminate.
  - exact Hval.
  - rewrite !length_app.
    assert (Hl : List.length (firstn (S m) rest) = S m).
    { apply firstn_length_le.
      destruct (Nat.le_gt_cases (S m) (List.length rest)); [assumption|].
      rewrite skipn_all2 in K by lia. discriminate. }
    rewrite Hl. simpl. lia.
Qed.

(** ** Strings *)

Lemma eqb_refl (s : jsstring) : eqb s s = true.
Proof.
  induction s as [|c s IH]; simpl; [reflexivity|].
  now rewrite N.eqb_refl, IH.
Qed.

Lemma eqb_eq (s t : jsstring) : eqb s t = true <-> s = t.
Proof.
  split; [|intros ->; apply eqb_refl].
  revert t; induction s as [|c s IH]; intros [|d t]; simpl; try discriminate; auto.
  rewrite andb_true_iff, N.eqb_eq. intros [-> H]. f_equal. now apply IH.
Qed.

Lemma eqb_neq (s t : jsstring) : eqb s t = false <-> s <> t.
Proof.
  rewrite <- eqb_eq. destruct (eqb s t); split; congruence.
Qed.

Lemma opt_eqb_eq (a b : option jsstring) : opt_eqb a b = true <-> a = b.
Proof.
  destruct a as [x|], b as [y|]; simpl; try (split; congruence).
  rewrite eqb_eq. split; congruence.
Qed.

(** ** Executions of the render effect *)

Lemma latest_app (old : list Run) (r : Run) : latest (old ++ [r]) = Some r.
Proof. unfold latest. now rewrite rev_unit. Qed.

Lemma cleanupLatest_app (old : list Run) (r : Run) :
  cleanupLatest (old ++ [r]) = old ++ [cleanup r].
Proof.
  induction old as [|r0 old IH]; [reflexivity|].
  change ((r0 :: old) ++ [r]) with (r0 :: (old ++ [r])).
  simpl. rewrite IH. destruct (old ++ [r]) eqn:E; [|reflexivity].
  now destruct old.
Qed.

Lemma runs_nil_or_app (rs : list Run) :
  rs = [] \/ exists old r, rs = old ++ [r].
Proof.
  induction rs as [|r old _] using rev_ind; [now left|right].
  now exists old, r.
Qed.

(** ** Frame properties of the handlers *)

Ltac unfold_handlers :=
  unfold handle, onRenderer, handleFix, handleGenerate, serviceSettled,
    handleGenerate_resume, handleFix_resume, handleGenerate_catch,
    handleFix_catch, renderDiagram, handleMermaidSuccess,
    handleMermaidError, addLog, switchView.

Ltac break_match :=
  repeat match goal with
         | |- context [if ?b then _ else _] => destruct b
         | |- context [match ?x with _ => _ end] => destruct x
         end.

Section Pipeline.

Variable apiKey : option jsstring.

Lemma flushEffects_frame (a : State) :
  code (flushEffects a) = code a /\ error (flushEffects a) = error a /\
  logs (flushEffects a) = logs a /\ renderer (flushEffects a) = renderer a /\
  viewMode (flushEffects a) = viewMode a /\ calls (flushEffects a) = calls a /\
  isProcessing (flushEffects a) = isProcessing a.
Proof. unfold flushEffects. break_match; simpl; auto 10. Qed.

(** Only a change of layout touches the executions of the effect or the
    layout itself. *)
Lemma handle_runs (ev : Event) (a : State) :
  (forall m, ev <> ClickViewMode m) ->
  runs (handle apiKey ev a) = runs a /\
  viewMode (handle apiKey ev a) = viewMode a.
Proof.
  intros Hev. destruct ev; try (exfalso; eapply Hev; reflexivity);
    unfold_handlers; break_match; simpl; auto.
Qed.

Lemma switchView_code (m : ViewMode) (a : State) :
  code (switchView m a) = code a /\ error (switchView m a) = error a.
Proof. unfold switchView. break_match; simpl; auto. Qed.

End Pipeline.

Section Effects.

Variable apiKey : option jsstring.

Lemma flushEffects_flushes (a : State) :
  effectsPending a -> effectsFlushed (flushEffects a).
Proof.
  intros (old & r & E & Hold & Hoff & Hg). unfold flushEffects.
  destruct (previewShown (viewMode a)) eqn:P.
  - rewrite E, latest_app.
    destruct (isMounted r && eqb (run_code r) (code a)
              && opt_eqb (run_error r) (error a)) eqn:C.
    + apply andb_true_iff in C as [C C3]. apply andb_true_iff in C as [C1 C2].
      apply eqb_eq in C2. apply opt_eqb_eq in C3.
      exists old, r. rewrite P. repeat split; auto.
    + rewrite cleanupLatest_app.
      exists (old ++ [cleanup r]), (startRun (code a) (error a)); simpl.
      rewrite P. repeat split; auto.
      * apply Forall_app; split; [assumption|]. now constructor.
      * rewrite E in Hg. apply Forall_app in Hg as [Hg1 Hg2].
        inversion_clear Hg2 as [|? ? Hr _].
        repeat (apply Forall_app; split); auto; repeat constructor; exact Hr.
  - exists old, r. rewrite P. repeat split; auto; discriminate.
Qed.

Lemma handle_pending (ev : Event) (a : State) :
  effectsFlushed a -> effectsPending (handle apiKey ev a).
Proof.
  intros (old & r & E & Hold & Hm & Hdeps & Hg).
  assert (Hcl : Forall guarded (old ++ [cleanup r])).
  { rewrite E in Hg. apply Forall_app in Hg as [Hg1 Hg2].
    inversion_clear Hg2 as [|? ? Hr _].
    apply Forall_app; split; [assumption|]. constructor; [exact Hr|constructor]. }
  destruct ev as [| | | | | | | | | | | | | | | | | |m|];
    try (match goal with
         | |- effectsPending (handle _ ?e _) =>
             destruct (handle_runs apiKey e a) as [Hr Hv];
             [intros; discriminate|]
         end;
         exists old, r; rewrite Hr, Hv; repeat split; auto;
         intros P; now rewrite P in Hm).
  simpl. unfold switchView.
  destruct (previewShown (viewMode a)) eqn:P, (previewShown m) eqn:Pm; simpl.
  - exists old, r. simpl. rewrite Pm. repeat split; auto; discriminate.
  - rewrite E, cleanupLatest_app. exists old, (cleanup r). repeat split; auto.
  - exists old, r. simpl. rewrite Pm. repeat split; auto; discriminate.
  - exists old, r. simpl. repeat split; auto.
Qed.

Lemma step_flushed (ev : Event) (a : State) :
  effectsFlushed a -> effectsFlushed (step apiKey a ev).
Proof. intros H. apply flushEffects_flushes, handle_pending, H. Qed.

Lemma init_flushed : effectsFlushed (init apiKey).
Proof.
  exists [], (startRun INITIAL_CODE None). simpl.
  repeat split; auto. repeat constructor.
Qed.

Lemma reachable_flushed (a : State) :
  reachable apiKey a -> effectsFlushed a.
Proof.
  induction 1 as [|a ev _ IH]; [apply init_flushed|now apply step_flushed].
Qed.

(** Flushing twice does nothing more. *)
Lemma flushed_fixed (a : State) : effectsFlushed a -> flushEffects a = a.
Proof.
  intros (old & r & E & _ & Hm & Hdeps & _). unfold flushEffects.
  destruct (previewShown (viewMode a)); [|reflexivity].
  rewrite E, latest_app, Hm. destruct Hdeps as [-> ->]; [reflexivity|].
  now rewrite eqb_refl, (proj2 (opt_eqb_eq _ _) eq_refl).
Qed.

(** *** Cleaned-up runs stay cleaned up *)

Lemma aged_refl (rs : list Run) : aged rs rs.
Proof. intros i r H Hm. now exists r. Qed.

Lemma aged_trans (rs1 rs2 rs3 : list Run) :
  aged rs1 rs2 -> aged rs2 rs3 -> aged rs1 rs3.
Proof.
  intros H12 H23 i r H Hm.
  destruct (H12 i r H Hm) as (r' & H' & Hm'). exact (H23 i r' H' Hm').
Qed.

Lemma aged_app (rs new : list Run) : aged rs (rs ++ new).
Proof.
  intros i r H Hm. exists r. split; [|assumption].
  rewrite nth_error_app1; [assumption|].
  apply nth_error_Some. congruence.
Qed.

Lemma aged_cleanupLatest (rs : list Run) : aged rs (cleanupLatest rs).
Proof.
  destruct (runs_nil_or_app rs) as [->|(old & r0 & ->)]; [apply aged_refl|].
  rewrite cleanupLatest_app. intros i r H Hm.
  destruct (Nat.lt_ge_cases i (List.length old)) as [Hi|Hi].
  - rewrite nth_error_app1 in * by assumption. now exists r.
  - rewrite nth_error_app2 in * by assumption.
    destruct (i - List.length old)%nat as [|n]; simpl in *.
    + now exists (cleanup r0).
    + destruct n; discriminate.
Qed.

Lemma flushEffects_aged (a : State) : aged (runs a) (runs (flushEffects a)).
Proof.
  unfold flushEffects. break_match; simpl; try apply aged_refl.
  - eapply aged_trans; [apply aged_cleanupLatest|apply aged_app].
  - apply aged_app.
Qed.

Lemma handle_aged (ev : Event) (a : State) :
  aged (runs a) (runs (handle apiKey ev a)).
Proof.
  destruct ev as [| | | | | | | | | | | | | | | | | |m|];
    try (match goal with
         | |- aged _ (runs (handle _ ?e _)) =>
             destruct (handle_runs apiKey e a) as [-> _];
             [intros; discriminate|]
         end; apply aged_refl).
  simpl. unfold switchView. break_match; simpl;
    first [apply aged_refl | apply aged_cleanupLatest].
Qed.

Lemma step_aged (ev : Event) (a : State) :
  aged (runs a) (runs (step apiKey a ev)).
Proof.
  eapply aged_trans; [apply handle_aged|apply flushEffects_aged].
Qed.

Lemma step_stale (ev : Event) (a : State) (i : nat) :
  stale a i -> stale (step apiKey a ev) i.
Proof. intros (r & H & Hm). exact (step_aged ev a i r H Hm). Qed.

(** The result of a superseded run changes nothing. *)
Lemma renderDiagram_stale (a : State) (i : nat) (o : CompileOutcome) :
  stale a i -> renderDiagram i o a = a.
Proof.
  intros (r & H & Hm). unfold renderDiagram. rewrite H, Hm.
  now destruct (run_compiling r), o.
Qed.

Lemma step_stale_settled (a : State) (i : nat) (o : CompileOutcome) :
  effectsFlushed a -> stale a i -> step apiKey a (RenderSettled i o) = a.
Proof.
  intros Hf Hs. unfold step. simpl. rewrite renderDiagram_stale by assumption.
  now apply flushed_fixed.
Qed.

(** A result that arrives for a superseded run, at whatever point of what
    follows, leaves the whole run of events unchanged. *)
Lemma stale_result_discarded (evs1 evs2 : list Event) (a : State)
      (i : nat) (o : CompileOutcome) :
  effectsFlushed a -> stale a i ->
  run apiKey (evs1 ++ RenderSettled i o :: evs2) a = run apiKey (evs1 ++ evs2) a.
Proof.
  revert a. induction evs1 as [|ev evs1 IH]; intros a Hf Hs; simpl.
  - now rewrite step_stale_settled.
  - apply IH; [now apply step_flushed|now apply step_stale].
Qed.

(** A change of source supersedes every run started before it. *)
Lemma source_change_supersedes (a : State) (ev : Event) (i : nat) :
  effectsFlushed a ->
  code (step apiKey a ev) <> code a ->
  (i < List.length (runs a))%nat ->
  stale (step apiKey a ev) i.
Proof.
  intros (old & r & E & Hold & Hm & Hdeps & _) Hcode Hi.
  unfold step in *. set (h := handle apiKey ev a) in *.
  destruct (flushEffects_frame h) as (Hc & _). rewrite Hc in Hcode.
  assert (Hrv : runs h = runs a /\ viewMode h = viewMode a).
  { apply handle_runs. intros m ->. apply Hcode.
    apply (switchView_code m a). }
  destruct Hrv as [Hr Hv].
  assert (Hall : forall rs, exists r', nth_error ((old ++ [cleanup r]) ++ rs) i = Some r'
                                  /\ isMounted r' = false).
  { intros rs. rewrite E, length_app in Hi. simpl in Hi.
    rewrite nth_error_app1 by (rewrite length_app; simpl; lia).
    destruct (Nat.lt_ge_cases i (List.length old)) as [Hlt|Hge].
    - rewrite nth_error_app1 by assumption.
      destruct (nth_error old i) as [r'|] eqn:N;
        [|apply nth_error_None in N; lia].
      exists r'. split; [reflexivity|].
      rewrite Forall_forall in Hold. apply Hold. eapply nth_error_In, N.
    - rewrite nth_error_app2 by assumption.
      replace (i - List.length old)%nat with 0%nat by lia.
      now exists (cleanup r). }
  unfold stale, flushEffects. rewrite Hv, Hr, E, latest_app.
  destruct (previewShown (viewMode a)) eqn:P.
  - destruct Hdeps as [Hrc _]; [reflexivity|].
    replace (eqb (run_code r) (code h)) with false
      by (symmetry; apply eqb_neq; congruence).
    rewrite andb_false_r. simpl. rewrite cleanupLatest_app. apply Hall.
  - rewrite Hr, E. destruct (Hall []) as (r' & N & Hr').
    rewrite app_nil_r in N.
    assert (Hcl : forall r0, isMounted r0 = false -> cleanup r0 = r0)
      by (now intros [? ? ? ?]; simpl; intros ->).
    rewrite Hcl in N by assumption. now exists r'.
Qed.

(** A result that does change the state belongs to the live run, which
    was started on the current source. *)
Lemma effective_result_is_current (a : State) (i : nat) (o : CompileOutcome) :
  effectsFlushed a ->
  step apiKey a (RenderSettled i o) <> a ->
  exists r, nth_error (runs a) i = Some r /\ isMounted r = true /\
            run_code r = code a /\ run_error r = error a.
Proof.
  intros Hf Hne.
  destruct (nth_error (runs a) i) as [r|] eqn:N.
  - destruct (isMounted r) eqn:M.
    + exists r. split; [reflexivity|]. split; [assumption|].
      destruct Hf as (old & r0 & E & Hold & Hm & Hdeps & _).
      rewrite E in N.
      destruct (Nat.lt_ge_cases i (List.length old)) as [Hlt|Hge].
      * rewrite nth_error_app1 in N by assumption.
        rewrite Forall_forall in Hold. apply nth_error_In, Hold in N.
        unfold unmounted in N. congruence.
      * rewrite nth_error_app2 in N by assumption.
        destruct (i - List.length old)%nat as [|[|n]]; simpl in N; try discriminate.
        injection N as <-. apply Hdeps. congruence.
    + exfalso. apply Hne. apply step_stale_settled; [assumption|now exists r].
  - exfalso. apply Hne. unfold step. simpl. unfold renderDiagram. rewrite N.
    now apply flushed_fixed.
Qed.

End Effects.

(** ** The zoom factor stays within its bounds *)

Lemma scaleInBounds_one : scaleInBounds 1.
Proof. unfold scaleInBounds. split; lra. Qed.

Lemma wheelScale_bounds (k deltaY : Q) : scaleInBounds (wheelScale k deltaY).
Proof.
  unfold scaleInBounds, wheelScale. split.
  - apply Q.min_glb; [apply Q.le_max_l|lra].
  - apply Q.le_min_r.
Qed.

Lemma zoomInScale_bounds (k : Q) :
  scaleInBounds k -> scaleInBounds (zoomInScale k).
Proof.
  unfold scaleInBounds, zoomInScale. intros [Hlo Hhi]. split.
  - apply Q.min_glb; lra.
  - apply Q.le_min_l.
Qed.

Lemma zoomOutScale_bounds (k : Q) :
  scaleInBounds k -> scaleInBounds (zoomOutScale k).
Proof.
  unfold scaleInBounds, zoomOutScale. intros [Hlo Hhi]. split.
  - apply Q.le_max_l.
  - apply Q.max_lub; [lra|].
    apply Qle_shift_div_r; lra.
Qed.

Lemma handle_scale (apiKey : option jsstring) (ev : Event) (a : State) :
  scaleInBounds (scale (renderer a)) ->
  scaleInBounds (scale (renderer (handle apiKey ev a))).
Proof.
  intros H.
  pose proof scaleInBounds_one as H1.
  pose proof (zoomInScale_bounds _ H) as Hin.
  pose proof (zoomOutScale_bounds _ H) as Hout.
  destruct ev as [| | | | | |deltaY| | | | | | | | | | | | |];
    try pose proof (wheelScale_bounds (scale (renderer a)) deltaY) as Hw;
    unfold_handlers; unfold handleMouseMove; break_match; simpl; assumption.
Qed.

Lemma step_scale (apiKey : option jsstring) (ev : Event) (a : State) :
  scaleInBounds (scale (renderer a)) ->
  scaleInBounds (scale (renderer (step apiKey a ev))).
Proof.
  intros H. unfold step.
  destruct (flushEffects_frame (handle apiKey ev a)) as (_ & _ & _ & -> & _).
  now apply handle_scale.
Qed.

Lemma trace_scale (apiKey : option jsstring) (evs : list Event) (a : State) :
  scaleInBounds (scale (renderer a)) ->
  Forall (fun b => scaleInBounds (scale (renderer b))) (trace apiKey a evs).
Proof.
  revert a. induction evs as [|ev evs IH]; intros a H; simpl.
  - now constructor.
  - constructor; [assumption|]. apply IH. now apply step_scale.
Qed.

(** C2. Along every sequence of events (wheel, zoom buttons, drag, reset
    and all the others), starting from the freshly mounted page whose scale
    is 1, the scale lies in [0.1, 5] in every state passed through. *)
Theorem scale_always_within_bounds (apiKey : option jsstring) (evs : list Event) :
  scale (renderer (init apiKey)) = 1 /\
  Forall (fun a => 0.1 <= scale (renderer a) /\ scale (renderer a) <= 5)
         (trace apiKey (init apiKey) evs).
Proof.
  split; [reflexivity|].
  apply (trace_scale apiKey evs (init apiKey)). exact scaleInBounds_one.
Qed.

(** ** The race between compiles *)

(** C1. Whenever an event changes the diagram source, every compile
    started before it is superseded: its result, whatever it is and at
    whatever later point it arrives among arbitrary other events (the
    newer compile's result included), is discarded, the run of events
    ending in the very same state as if it had never arrived.  Moreover a
    compile result that does change the state always belongs to the live
    run, which was started on the current source: the artifact and the
    error never come from an intermediate source. *)
Theorem stale_compile_never_overwrites
        (apiKey : option jsstring) (a : State) (ev : Event) (i : nat)
        (o : CompileOutcome) (evs1 evs2 : list Event) :
  reachable apiKey a ->
  code (step apiKey a ev) <> code a ->
  (i < List.length (runs a))%nat ->
  run apiKey (evs1 ++ RenderSettled i o :: evs2) (step apiKey a ev)
  = run apiKey (evs1 ++ evs2) (step apiKey a ev)
  /\
  forall b j o',
    b = run apiKey evs1 (step apiKey a ev) ->
    step apiKey b (RenderSettled j o') <> b ->
    exists r, nth_error (runs b) j = Some r /\ isMounted r = true /\
              run_code r = code b /\ j <> i.
Proof.
  intros Hreach Hcode Hi.
  pose proof (reachable_flushed apiKey a Hreach) as Hf.
  pose proof (step_flushed apiKey ev a Hf) as Hf'.
  pose proof (source_change_supersedes apiKey a ev i Hf Hcode Hi) as Hs.
  split.
  - now apply stale_result_discarded.
  - intros b j o' -> Hne.
    assert (Hb : effectsFlushed (run apiKey evs1 (step apiKey a ev))
                 /\ stale (run apiKey evs1 (step apiKey a ev)) i).
    { clear Hne. revert Hf' Hs. generalize (step apiKey a ev).
      induction evs1 as [|e evs1 IH]; intros s Hfs Hss; simpl; [now split|].
      apply IH; [now apply step_flushed|now apply step_stale]. }
    destruct Hb as [Hfb (ri & Ni & Mi)].
    destruct (effective_result_is_current apiKey _ j o' Hfb Hne)
      as (r & N & M & C & _).
    exists r. repeat split; auto. intros ->. congruence.
Qed.

Lemma stale_compile_never_overwrites_witness :
  run Sample.key
      ([RenderSettled 1 (Threw Sample.parseError)]
         ++ RenderSettled 0 (Rendered Sample.svgA) :: [ClickZoomIn])
      (step Sample.key (init Sample.key) (EditCode Sample.malformed))
  = run Sample.key
        ([RenderSettled 1 (Threw Sample.parseError)] ++ [ClickZoomIn])
        (step Sample.key (init Sample.key) (EditCode Sample.malformed)).
Proof.
  apply (stale_compile_never_overwrites
           Sample.key (init Sample.key) (EditCode Sample.malformed) 0
           (Rendered Sample.svgA)
           [RenderSettled 1 (Threw Sample.parseError)] [ClickZoomIn]).
  - apply reach_init.
  - vm_compute. discriminate.
  - vm_compute. lia.
Defined.

(** ** What a settled compile does *)

(** The live run saw the current source and error. *)
Lemma current_run_deps (a : State) (i : nat) (r : Run) :
  effectsFlushed a -> nth_error (runs a) i = Some r -> isMounted r = true ->
  run_code r = code a /\ run_error r = error a.
Proof.
  intros (old & r0 & E & Hold & Hm & Hdeps & _) N M. rewrite E in N.
  destruct (Nat.lt_ge_cases i (List.length old)) as [Hlt|Hge].
  - rewrite nth_error_app1 in N by assumption.
    rewrite Forall_forall in Hold. apply nth_error_In, Hold in N.
    unfold unmounted in N. congruence.
  - rewrite nth_error_app2 in N by assumption.
    destruct (i - List.length old)%nat as [|[|n]]; simpl in N; try discriminate.
    injection N as <-. apply Hdeps. congruence.
Qed.

(** C5 (as amended). When the compile of the current run succeeds, one
    step replaces the artifact by the new markup stripped of its max-width
    declarations, resets the viewport to offset (0,0) and scale 1, and
    leaves no render error; a success entry is logged exactly when a
    render error was showing before, and nothing is logged otherwise. *)
Theorem success_effects (apiKey : option jsstring) (a : State) (i : nat)
        (svg : jsstring) :
  reachable apiKey a ->
  current a i ->
  let a' := step apiKey a (RenderSettled i (Rendered svg)) in
  svgContent (renderer a') = cleanSvg svg /\
  viewReset a' /\
  opt_truthy (error a') = false /\
  error a' = (if opt_truthy (error a) then None else error a) /\
  logs a' = logs a ++
            (if opt_truthy (error a)
             then [mkLog SUCCESS (js "Diagram Rendered Successfully") None]
             else []).
Proof.
  intros Hreach (r & N & M & C) a'.
  destruct (current_run_deps a i r (reachable_flushed _ _ Hreach) N M) as [_ He].
  subst a'. unfold step, viewReset.
  destruct (flushEffects_frame (handle apiKey (RenderSettled i (Rendered svg)) a))
    as (_ & -> & -> & -> & _).
  simpl. unfold renderDiagram. rewrite N, C, M, He.
  unfold handleMermaidSuccess.
  destruct (opt_truthy (error a)) eqn:T; simpl; rewrite ?T, ?app_nil_r; auto 10.
Qed.

Lemma success_effects_witness :
  svgContent (renderer (step Sample.key Sample.failed
                             (RenderSettled 2 (Rendered Sample.svgB))))
  = cleanSvg Sample.svgB.
Proof.
  apply (success_effects Sample.key Sample.failed 2 Sample.svgB).
  - unfold Sample.failed, run. simpl. repeat apply reach_step. apply reach_init.
  - eexists. vm_compute. repeat split.
Defined.

(** C5, as stated, fails: the first compile of the initial sample succeeds
    and is applied (the artifact is replaced, the view reset), yet no
    success entry is emitted: the log is what it was. *)
Lemma success_without_notification :
  current (init Sample.key) 0 /\
  svgContent (renderer (step Sample.key (init Sample.key)
                             (RenderSettled 0 (Rendered Sample.svgB))))
  = Sample.svgB /\
  logs (step Sample.key (init Sample.key)
             (RenderSettled 0 (Rendered Sample.svgB)))
  = logs (init Sample.key) /\
  ~ exists e, In e (logs (step Sample.key (init Sample.key)
                               (RenderSettled 0 (Rendered Sample.svgB))))
              /\ level e = SUCCESS.
Proof.
  split; [eexists; vm_compute; repeat split|].
  split; [reflexivity|]. split; [reflexivity|].
  intros (e & [<-|[]] & H). vm_compute in H. discriminate.
Qed.

(** C6. When the compile of the current run fails, the render error
    becomes the message drawn from what was thrown, a failure entry
    carrying that message is logged, and the renderer (the displayed
    artifact, and the viewport with it) is left as it was. *)
Theorem failure_effects (apiKey : option jsstring) (a : State) (i : nat)
        (e : Thrown) :
  current a i ->
  let a' := step apiKey a (RenderSettled i (Threw e)) in
  error a' = Some (errorMessage e) /\
  logs a' = logs a ++ [mkLog ERROR (js "Rendering Failed") (Some (errorMessage e))] /\
  svgContent (renderer a') = svgContent (renderer a) /\
  renderer a' = renderer a.
Proof.
  intros (r & N & M & C) a'. subst a'. unfold step.
  destruct (flushEffects_frame (handle apiKey (RenderSettled i (Threw e)) a))
    as (_ & -> & -> & -> & _).
  simpl. unfold renderDiagram. rewrite N, C, M. simpl. auto.
Qed.

Lemma failure_effects_witness :
  error (step Sample.key
              (run Sample.key [RenderSettled 0 (Rendered Sample.svgA);
                               EditCode Sample.malformed] (init Sample.key))
              (RenderSettled 1 (Threw Sample.parseError)))
  = Some (js "Parse error on line 2")
  /\
  svgContent (renderer (step Sample.key
              (run Sample.key [RenderSettled 0 (Rendered Sample.svgA);
                               EditCode Sample.malformed] (init Sample.key))
              (RenderSettled 1 (Threw Sample.parseError))))
  = js "<svg id='a' style=''></svg>".
Proof.
  destruct (failure_effects Sample.key
              (run Sample.key [RenderSettled 0 (Rendered Sample.svgA);
                               EditCode Sample.malformed] (init Sample.key))
              1 Sample.parseError) as (He & _ & Hs & _).
  - eexists. vm_compute. repeat split.
  - split; [exact He|]. rewrite Hs. reflexivity.
Defined.

(** ** Blank sources *)

Lemma trimStart_nil (s : jsstring) : trimStart s = [] <-> whitespaceOnly s.
Proof.
  unfold whitespaceOnly. induction s as [|c s IH]; simpl.
  - split; auto.
  - destruct (isWhiteSpace c) eqn:W.
    + rewrite IH. split; [now constructor|now inversion 1].
    + split; [discriminate|]. inversion 1. congruence.
Qed.

Lemma trimStart_head (s t : jsstring) (c : N) :
  trimStart s = c :: t -> isWhiteSpace c = false.
Proof.
  induction s as [|d s IH]; simpl; [discriminate|].
  destruct (isWhiteSpace d) eqn:W; [assumption|]. now intros [= <- _].
Qed.

(** [!code.trim()] holds exactly of the empty and the white-space-only
    strings. *)
Lemma isBlank_whitespaceOnly (s : jsstring) :
  isBlank s = true <-> whitespaceOnly s.
Proof.
  unfold isBlank, trim, trimEnd.
  destruct (trimStart s) as [|c t] eqn:E.
  - simpl. rewrite <- trimStart_nil, E. now split.
  - pose proof (trimStart_head _ _ _ E) as Hc.
    assert (Hne : rev (trimStart (rev (c :: t))) <> []).
    { intros H. apply (f_equal (@rev N)) in H. rewrite rev_involutive in H.
      simpl in H. apply trimStart_nil in H. unfold whitespaceOnly in H.
      rewrite Forall_forall in H.
      specialize (H c ltac:(apply in_or_app; right; now left)). congruence. }
    split.
    + destruct (rev (trimStart (rev (c :: t)))); [congruence|discriminate].
    + rewrite <- trimStart_nil, E. discriminate.
Qed.

Lemma filter_cleanupLatest (rs : list Run) :
  List.length (filter run_compiling (cleanupLatest rs))
  = List.length (filter run_compiling rs).
Proof.
  destruct (runs_nil_or_app rs) as [->|(old & r & ->)]; [reflexivity|].
  rewrite cleanupLatest_app, !filter_app, !length_app. simpl.
  now destruct (run_compiling r).
Qed.

(** C8. When the source becomes an empty or white-space-only string (by
    typing in the editor, which is [EditCode], or by any other call of
    [setCode]), the pipeline does nothing: the renderer (artifact and
    viewport), the render error and the log are what they were, no compile
    is requested from the engine, and no compile result arriving afterwards
    has any effect, so neither a success nor a failure is ever reported
    for it. *)
Theorem blank_source_is_ignored (apiKey : option jsstring) (a : State)
        (v : jsstring) :
  reachable apiKey a ->
  whitespaceOnly v ->
  let a' := flushEffects (setCode v a) in
  (editorShown (viewMode a) = true -> step apiKey a (EditCode v) = a') /\
  code a' = v /\
  renderer a' = renderer a /\
  error a' = error a /\
  logs a' = logs a /\
  compilesRequested a' = compilesRequested a /\
  forall i o, step apiKey a' (RenderSettled i o) = a'.
Proof.
  intros Hreach Hv a'.
  apply isBlank_whitespaceOnly in Hv.
  pose proof (reachable_flushed _ _ Hreach) as Hf.
  assert (Hp : effectsPending (setCode v a)).
  { destruct Hf as (old & r & E & Hold & Hm & _ & Hg).
    exists old, r. simpl. repeat split; auto. intros P. now rewrite P in Hm. }
  pose proof (flushEffects_flushes _ Hp) as Hf'. fold a' in Hf'.
  destruct (flushEffects_frame (setCode v a)) as (Hc & He & Hl & Hr & Hvm & _).
  fold a' in Hc, He, Hl, Hr, Hvm. simpl in Hc, He, Hl, Hr, Hvm.
  repeat split; auto.
  - intros Hed. unfold step. simpl. now rewrite Hed.
  - assert (Hs : forall e, filter run_compiling [startRun v e] = []).
    { intros e. cbv [filter startRun run_compiling]. now rewrite Hv. }
    subst a'. unfold flushEffects.
    destruct (previewShown (viewMode (setCode v a))); [|reflexivity].
    destruct (latest (runs (setCode v a))) as [r|];
      [destruct (isMounted r && eqb (run_code r) (code (setCode v a))
                 && opt_eqb (run_error r) (error (setCode v a)));
       [reflexivity|]|];
      unfold compilesRequested; cbn [runs setRuns setCode];
      rewrite filter_app, length_app, ?filter_cleanupLatest, Hs; simpl; lia.
  - intros i o. unfold step. simpl.
    replace (renderDiagram i o a') with a'; [now apply flushed_fixed|].
    unfold renderDiagram.
    destruct (nth_error (runs a') i) as [r|] eqn:N; [|reflexivity].
    destruct (run_compiling r) eqn:C; [|reflexivity].
    destruct (isMounted r) eqn:M; [|now destruct o].
    exfalso.
    destruct (current_run_deps a' i r Hf' N M) as [Hrc _].
    destruct Hf' as (_ & _ & _ & _ & _ & _ & Hg).
    rewrite Forall_forall in Hg. apply nth_error_In, Hg in N.
    unfold guarded in N. rewrite Hrc, Hc, Hv in N. simpl in N. congruence.
Qed.

Lemma blank_source_is_ignored_witness :
  logs (flushEffects (setCode (js "  ") Sample.failed)) = logs Sample.failed /\
  compilesRequested (flushEffects (setCode (js "  ") Sample.failed))
  = compilesRequested Sample.failed.
Proof.
  destruct (blank_source_is_ignored Sample.key Sample.failed (js "  "))
    as (_ & _ & _ & _ & Hl & Hn & _).
  - unfold Sample.failed, run. simpl. repeat apply reach_step. apply reach_init.
  - repeat constructor.
  - split; [exact Hl|exact Hn].
Defined.

(** ** The correction loop *)

(** C3 (as amended). When the service call of an outstanding fix request
    throws, a Fix Failed error entry carrying the exception's message (or
    Unknown error) is appended to the log, and neither the source nor the
    render error changes.  A response whose text is empty or undefined is
    no failure: it is applied as the fix, the source becoming the empty
    string and a Fix Applied entry being logged; the render error stays. *)
Theorem fix_failure_effects (apiKey : option jsstring) (a : State) (k : nat)
        (c : ServiceCall) (e : Thrown) (text : option jsstring) :
  nth_error (calls a) k = Some c ->
  call_settled c = false ->
  isFixRequest c = true ->
  let a' := step apiKey a (ServiceSettled k (Gemini.ServiceThrew e)) in
  let a'' := step apiKey a (ServiceSettled k (Gemini.Responded text)) in
  (logs a' = logs a ++ [mkLog ERROR (js "Fix Failed")
                              (Some (or_else (message_of e) (js "Unknown error")))] /\
   code a' = code a /\
   error a' = error a)
  /\
  (or_else text [] = [] ->
   logs a'' = logs a ++ [mkLog SUCCESS (js "Fix Applied")
                               (Some (js "The AI has updated the code. Verifying render..."))] /\
   code a'' = [] /\
   error a'' = error a).
Proof.
  intros N S F a' a''. subst a' a''. unfold step.
  destruct (flushEffects_frame
              (handle apiKey (ServiceSettled k (Gemini.ServiceThrew e)) a))
    as (-> & -> & -> & _).
  destruct (flushEffects_frame
              (handle apiKey (ServiceSettled k (Gemini.Responded text)) a))
    as (-> & -> & -> & _).
  simpl. unfold serviceSettled. rewrite N, S.
  unfold isFixRequest in F. destruct (call_request c); [discriminate|].
  split; [simpl; auto|].
  intros E. unfold handleFix_resume, Gemini.resume. rewrite E. simpl. auto.
Qed.

Lemma fix_failure_effects_witness :
  code (step Sample.key Sample.fixing
             (ServiceSettled 0 (Gemini.ServiceThrew (ThrowError (js "503")))))
  = Sample.malformed
  /\
  error (step Sample.key Sample.fixing
              (ServiceSettled 0 (Gemini.ServiceThrew (ThrowError (js "503")))))
  = Some (js "Parse error on line 2").
Proof.
  destruct (fix_failure_effects Sample.key Sample.fixing 0
              (mkCall (Gemini.FixRequest Sample.malformed
                                         (js "Parse error on line 2")) false)
              (ThrowError (js "503")) None)
    as ((_ & Hc & He) & _); try reflexivity.
  split; [rewrite Hc|rewrite He]; reflexivity.
Defined.

(** C3, as stated, fails for an empty response: with a fix outstanding,
    a response whose text is empty (or undefined) is applied as the fix.
    The source is replaced by the empty string and a Fix Applied success
    entry is logged; no failure entry is. *)
Lemma empty_fix_is_applied :
  (exists c, nth_error (calls Sample.fixing) 0 = Some c /\
             call_settled c = false /\ isFixRequest c = true) /\
  code Sample.fixing = Sample.malformed /\
  code (step Sample.key Sample.fixing
             (ServiceSettled 0 (Gemini.Responded (Some [])))) = [] /\
  code (step Sample.key Sample.fixing
             (ServiceSettled 0 (Gemini.Responded None))) = [] /\
  logs (step Sample.key Sample.fixing
             (ServiceSettled 0 (Gemini.Responded (Some []))))
  = logs Sample.fixing
         ++ [mkLog SUCCESS (js "Fix Applied")
                   (Some (js "The AI has updated the code. Verifying render..."))].
Proof.
  split; [eexists; vm_compute; repeat split|].
  repeat split; reflexivity.
Qed.

(** C4 at the failing input.  With an error showing and the service
    configured, pressing Auto-Fix twice before the first call settles
    leaves two fix requests outstanding; the header button, disabled while
    [isProcessing], leaves one. *)
Lemma autofix_twice_two_calls :
  opt_truthy (error Sample.failed) = true /\
  Gemini.isAIEnabled Sample.key = true /\
  List.length (filter isFixRequest
                 (outstanding (run Sample.key [ClickAutoFix; ClickAutoFix]
                                   Sample.failed))) = 2%nat /\
  List.length (filter isFixRequest
                 (outstanding (run Sample.key [ClickFixWithAI; ClickFixWithAI]
                                   Sample.failed))) = 1%nat.
Proof. repeat split; reflexivity. Qed.

(** The header button is single-flight: while [isProcessing] it starts
    no call. *)
Lemma header_fix_guarded (apiKey : option jsstring) (a : State) :
  isProcessing a = true -> calls (step apiKey a ClickFixWithAI) = calls a.
Proof.
  intros P. unfold step.
  destruct (flushEffects_frame (handle apiKey ClickFixWithAI a))
    as (_ & _ & _ & _ & _ & -> & _).
  simpl. rewrite P, orb_true_r, andb_false_r. reflexivity.
Qed.

(** The Auto-Fix button is not: whenever it is on the page it starts a
    call, whatever [isProcessing] says. *)
Lemma autofix_unguarded (apiKey : option jsstring) (a : State) :
  previewShown (viewMode a) = true -> opt_truthy (error a) = true ->
  Gemini.isAIEnabled apiKey = true ->
  exists req, calls (step apiKey a ClickAutoFix) = calls a ++ [mkCall req false].
Proof.
  intros P T E. unfold step.
  destruct (flushEffects_frame (handle apiKey ClickAutoFix a))
    as (_ & _ & _ & _ & _ & -> & _).
  simpl. rewrite P, T, E. simpl. unfold handleFix.
  destruct (error a) as [err|]; [|discriminate]. simpl in T. rewrite T. simpl.
  unfold Gemini.fixMermaidCode, Gemini.ai_is_null. rewrite E. simpl.
  eexists. reflexivity.
Qed.

(** ** The capability flag *)

(** C10. [isAIEnabled] holds exactly when the key is present, non-empty
    and not the string undefined.  When it does not hold, both service
    functions reject at once with the fixed message, no request being
    made, and the handlers built on them start no call. *)
Theorem ai_capability_flag (apiKey : option jsstring) :
  (Gemini.isAIEnabled apiKey = true <->
   exists k, apiKey = Some k /\ k <> [] /\ k <> js "undefined")
  /\
  (Gemini.isAIEnabled apiKey = false ->
   (forall p t,
       Gemini.generateMermaidCode apiKey p t
       = Gemini.Rejected
           (ThrowError (js "AI features are disabled. API Key is missing.")))
   /\
   (forall c e,
       Gemini.fixMermaidCode apiKey c e
       = Gemini.Rejected
           (ThrowError (js "AI features are disabled. API Key is missing.")))
   /\
   (forall a, calls (handleFix apiKey a) = calls a
              /\ calls (handleGenerate apiKey a) = calls a)).
Proof.
  split.
  - destruct apiKey as [k|].
    + replace (Gemini.isAIEnabled (Some k))
        with (truthy k && negb (eqb k (js "undefined")))
        by (now destruct k).
      rewrite andb_true_iff, negb_true_iff, eqb_neq. split.
      * intros [T U]. exists k. repeat split; auto. now destruct k.
      * intros (k' & [= <-] & Hne & Hu). split; [now destruct k|assumption].
    + split; [discriminate|]. now intros (k & ? & _).
  - intros E.
    unfold Gemini.generateMermaidCode, Gemini.fixMermaidCode, Gemini.ai_is_null.
    rewrite E. simpl. repeat split.
    + unfold handleFix, Gemini.fixMermaidCode, Gemini.ai_is_null. rewrite E. simpl.
      now break_match.
    + unfold handleGenerate, Gemini.generateMermaidCode, Gemini.ai_is_null.
      rewrite E. simpl. now break_match.
Qed.

(** ** Zooming in, then out *)

(** C9 (as amended). For a scale within the bounds, zooming in and then
    out gives back the scale exactly (in rational arithmetic, so within
    rounding error in floating point) as long as zooming in does not hit
    the upper bound, that is while scale * 1.2 <= 5; from there on the
    result is 5 / 1.2 whatever the scale was.  The offset is untouched. *)
Theorem zoomIn_then_zoomOut (s : Renderer.State) :
  scaleInBounds (scale s) ->
  (scale s * 1.2 <= 5 -> scale (zoomOut (zoomIn s)) == scale s) /\
  (5 <= scale s * 1.2 -> scale (zoomOut (zoomIn s)) == 5 / 1.2) /\
  pan (zoomOut (zoomIn s)) = pan s.
Proof.
  intros [Hlo Hhi]. simpl. unfold zoomOutScale, zoomInScale.
  repeat split.
  - intros H. rewrite (Q.min_r _ _ H).
    assert (E : scale s * 1.2 / 1.2 == scale s) by (field).
    rewrite E. apply Q.max_r. exact Hlo.
  - intros H. rewrite (Q.min_l _ _ H). apply Q.max_r.
    apply Qle_shift_div_l; lra.
Qed.

Lemma zoomIn_then_zoomOut_witness :
  scale (zoomOut (zoomIn Renderer.initial)) == 1.
Proof.
  apply (zoomIn_then_zoomOut Renderer.initial).
  - exact scaleInBounds_one.
  - simpl. lra.
Defined.

(** C9, as stated, fails at the upper bound.  Nine presses of the zoom-in
    button take the scale from 1 to 5; there, zooming in leaves 5 and
    zooming out gives 25/6: off the original by 5/6. *)
Lemma zoom_roundtrip_fails_at_upper_bound :
  scale (renderer (run Sample.key (List.repeat ClickZoomIn 9)
                       (init Sample.key))) == 5 /\
  zoomOutScale (zoomInScale 5) == 25 # 6 /\
  ~ Qabs (zoomOutScale (zoomInScale 5) - 5) <= 1 # 2.
Proof.
  split; [reflexivity|]. split; [reflexivity|].
  vm_compute. intros H. apply H. reflexivity.
Qed.

(** ** The artifact of a successful compile *)

(** The artifact after a successful compile is the engine's markup,
    normalised; nothing of the earlier state enters it. *)
Lemma rendered_on_live_run (apiKey : option jsstring) (a : State) (i : nat)
      (r : Run) (svg : jsstring) :
  nth_error (runs a) i = Some r -> isMounted r = true ->
  run_compiling r = true ->
  svgContent (renderer (step apiKey a (RenderSettled i (Rendered svg))))
  = cleanSvg svg
  /\ viewReset (step apiKey a (RenderSettled i (Rendered svg))).
Proof.
  intros N M C. unfold step, viewReset.
  destruct (flushEffects_frame (handle apiKey (RenderSettled i (Rendered svg)) a))
    as (_ & _ & _ & -> & _).
  simpl. unfold renderDiagram. rewrite N, C, M.
  unfold handleMermaidSuccess. destruct (opt_truthy (run_error r)); simpl; auto.
Qed.

(* ================================================================== *)
(** * Further properties of the code *)

Import Page Props.

(** ** [trim] *)

Lemma trimStart_split (s : jsstring) :
  exists w, whitespaceOnly w /\ s = w ++ trimStart s.
Proof.
  induction s as [|c s (w & Hw & E)]; simpl.
  - exists []. split; [constructor|reflexivity].
  - destruct (isWhiteSpace c) eqn:W.
    + exists (c :: w). split; [now constructor|]. simpl. now f_equal.
    + exists []. split; [constructor|reflexivity].
Qed.

Lemma trimStart_ws_app (w s : jsstring) :
  whitespaceOnly w -> trimStart (w ++ s) = trimStart s.
Proof. induction 1 as [|c w Hc _ IH]; simpl; [reflexivity|now rewrite Hc]. Qed.

Lemma trimStart_idem (s : jsstring) : trimStart (trimStart s) = trimStart s.
Proof.
  induction s as [|c s IH]; simpl; [reflexivity|].
  destruct (isWhiteSpace c) eqn:W; [assumption|]. simpl. now rewrite W.
Qed.

Lemma trimStart_app_keep (s t : jsstring) :
  trimStart s <> [] -> trimStart (s ++ t) = trimStart s ++ t.
Proof.
  induction s as [|c s IH]; simpl; [congruence|].
  destruct (isWhiteSpace c); [assumption|reflexivity].
Qed.

Lemma trimStart_fixed_head (s : jsstring) :
  trimStart s = s <-> match s with [] => True | c :: _ => isWhiteSpace c = false end.
Proof.
  destruct s as [|c s]; simpl; [now split|].
  destruct (isWhiteSpace c) eqn:W; split; try congruence; try reflexivity.
  intros H. exfalso.
  destruct (trimStart_split s) as (w & _ & E).
  apply (f_equal (@List.length N)) in E. rewrite length_app, H in E. simpl in E. lia.
Qed.

Lemma trim_of_tight (s : jsstring) : tight s -> trim s = s.
Proof.
  intros [H1 H2]. unfold trim, trimEnd. now rewrite H1, H2, rev_involutive.
Qed.

Lemma trim_is_tight (s : jsstring) : tight (trim s).
Proof.
  unfold tight, trim, trimEnd. set (t := trimStart s).
  set (u := trimStart (rev t)). rewrite rev_involutive.
  split; [|apply trimStart_idem].
  destruct (trimStart_split (rev t)) as (w & Hw & E). fold u in E.
  apply (f_equal (@rev N)) in E. rewrite rev_involutive, rev_app_distr in E.
  apply trimStart_fixed_head.
  destruct (rev u) as [|c ru] eqn:R; [exact I|].
  assert (Ht : trimStart t = t) by apply trimStart_idem.
  apply trimStart_fixed_head in Ht. rewrite E in Ht. exact Ht.
Qed.

Lemma trim_pad (w1 w2 s : jsstring) :
  whitespaceOnly w1 -> whitespaceOnly w2 -> trim (w1 ++ s ++ w2) = trim s.
Proof.
  intros H1 H2. unfold trim, trimEnd. rewrite (trimStart_ws_app _ _ H1).
  destruct (trimStart s) as [|c t] eqn:E.
  - apply trimStart_nil in E.
    assert (Hall : whitespaceOnly (s ++ w2)) by (apply Forall_app; now split).
    apply trimStart_nil in Hall. now rewrite Hall.
  - rewrite trimStart_app_keep by congruence. rewrite E, rev_app_distr.
    rewrite trimStart_ws_app; [reflexivity|].
    unfold whitespaceOnly in *. now apply Forall_rev.
Qed.

(** ** [cleanResponse] *)

Lemma startsWith_cancel (p s t : jsstring) :
  startsWith (p ++ s) (p ++ t) = startsWith s t.
Proof.
  induction p as [|c p IH]; simpl; [reflexivity|].
  now rewrite N.eqb_refl, IH.
Qed.

Lemma startsWith_prefix (s p q : jsstring) :
  startsWith s p = false -> startsWith s (p ++ q) = false.
Proof.
  revert s. induction p as [|c p IH]; intros s; simpl; [discriminate|].
  destruct s as [|d s]; [reflexivity|].
  destruct (N.eqb c d); simpl; [apply IH|reflexivity].
Qed.

(** A word without backquote that [m] does not start with is not what
    [m] followed by a fence starts with either. *)
Lemma startsWith_before_fence (m p : jsstring) :
  startsWith m p = false -> Forall (fun c => c <> 96%N) p ->
  startsWith (m ++ js "```") p = false.
Proof.
  intros Hm Hp. revert m Hm.
  induction Hp as [|c p Hc _ IH]; intros m; simpl; [discriminate|].
  destruct m as [|d m]; simpl.
  - intros _. apply N.eqb_neq in Hc. now rewrite Hc.
  - destruct (N.eqb c d); simpl; [apply IH|reflexivity].
Qed.

Lemma endsWith_app (m f : jsstring) : endsWith (m ++ f) f = true.
Proof. unfold endsWith. rewrite rev_app_distr. apply startsWith_app. Qed.

Lemma firstn_drop_suffix (m f : jsstring) :
  firstn (List.length (m ++ f) - List.length f) (m ++ f) = m.
Proof.
  rewrite length_app, Nat.add_sub, firstn_app, Nat.sub_diag, firstn_all.
  simpl. apply app_nil_r.
Qed.

Lemma tagged_fence_is_tight (m : jsstring) :
  tight (js "```mermaid" ++ m ++ js "```").
Proof. split; [reflexivity|]. rewrite !rev_app_distr. reflexivity. Qed.

Lemma plain_fence_is_tight (m : jsstring) :
  tight (js "```" ++ m ++ js "```").
Proof. split; [reflexivity|]. rewrite !rev_app_distr. reflexivity. Qed.

(** X1. The text [cleanResponse] returns never starts or ends with white
    space: trimming it again changes nothing. *)
Theorem cleanResponse_is_trimmed (text : jsstring) :
  trim (Gemini.cleanResponse text) = Gemini.cleanResponse text
  /\ tight (Gemini.cleanResponse text).
Proof.
  unfold Gemini.cleanResponse. cbv zeta.
  split; [apply trim_of_tight|]; apply trim_is_tight.
Qed.

(** X2. A response wrapped in a fence, with any white space around the
    fence, is reduced to what lies between the opening and the closing
    marker, trimmed: for the tagged opening marker always, and for the
    plain one provided the content does not itself begin with the word
    mermaid (it would be taken for the tag and dropped with it). *)
Theorem cleanResponse_fenced (w1 w2 m : jsstring) :
  whitespaceOnly w1 -> whitespaceOnly w2 ->
  Gemini.cleanResponse (w1 ++ (js "```mermaid" ++ m ++ js "```") ++ w2) = trim m
  /\
  (startsWith m (js "mermaid") = false ->
   Gemini.cleanResponse (w1 ++ (js "```" ++ m ++ js "```") ++ w2) = trim m)
  /\
  Gemini.cleanResponse (w1 ++ (js "```" ++ (js "mermaid" ++ m) ++ js "```") ++ w2)
  = trim m.
Proof.
  intros H1 H2.
  assert (Tag : forall m', Gemini.cleanResponse
                             (w1 ++ (js "```mermaid" ++ m' ++ js "```") ++ w2)
                           = trim m').
  { intros m'. unfold Gemini.cleanResponse. cbv zeta.
    rewrite (trim_pad _ _ _ H1 H2).
    rewrite (trim_of_tight _ (tagged_fence_is_tight m')).
    rewrite startsWith_app, skipn_length_app, endsWith_app, firstn_drop_suffix.
    reflexivity. }
  split; [apply Tag|]. split.
  - intros Hm. unfold Gemini.cleanResponse. cbv zeta.
    rewrite (trim_pad _ _ _ H1 H2).
    rewrite (trim_of_tight _ (plain_fence_is_tight m)).
    change (js "```mermaid") with (js "```" ++ js "mermaid").
    rewrite startsWith_cancel.
    replace (startsWith (m ++ js "```") (js "mermaid")) with false.
    + rewrite startsWith_app, skipn_length_app, endsWith_app, firstn_drop_suffix.
      reflexivity.
    + symmetry. apply startsWith_before_fence; [exact Hm|].
      repeat constructor; discriminate.
  - exact (Tag m).
Qed.

Lemma cleanResponse_fenced_witness :
  Gemini.cleanResponse
    (js " " ++ (js "```mermaid" ++ js "
graph TD
" ++ js "```") ++ js "
") = js "graph TD".
Proof.
  rewrite (proj1 (cleanResponse_fenced (js " ") (js "
") (js "
graph TD
") ltac:(repeat constructor) ltac:(repeat constructor))).
  reflexivity.
Defined.

(** X3. A response that, once trimmed, neither begins nor ends with three
    backquotes is returned trimmed and otherwise untouched; in particular
    a blank response gives the empty string. *)
Theorem cleanResponse_unfenced (text : jsstring) :
  startsWith (trim text) (js "```") = false ->
  endsWith (trim text) (js "```") = false ->
  Gemini.cleanResponse text = trim text
  /\ (whitespaceOnly text -> Gemini.cleanResponse text = []).
Proof.
  intros Hs He.
  assert (E : Gemini.cleanResponse text = trim text).
  { unfold Gemini.cleanResponse. cbv zeta.
    change (js "```mermaid") with (js "```" ++ js "mermaid").
    rewrite (startsWith_prefix _ _ _ Hs), Hs, He.
    apply trim_of_tight, trim_is_tight. }
  split; [exact E|].
  intros Hw. rewrite E. apply isBlank_whitespaceOnly in Hw.
  unfold isBlank in Hw. now destruct (trim text).
Qed.

Lemma cleanResponse_unfenced_witness :
  Gemini.cleanResponse (js "  pie title Pets  ") = js "pie title Pets".
Proof.
  rewrite (proj1 (cleanResponse_unfenced (js "  pie title Pets  ")
                    ltac:(reflexivity) ltac:(reflexivity))).
  reflexivity.
Defined.

(** ** [cleanSvg] *)

Lemma matchMaxWidth_positive (s : jsstring) (n : nat) :
  matchMaxWidth s = Some n -> exists k, n = S k.
Proof.
  intros H. apply matchMaxWidth_sound in H as (val & rest & _ & _ & _ & ->).
  simpl. eexists. reflexivity.
Qed.

Lemma stripMaxWidth_length (k : nat) (s : jsstring) :
  (List.length (stripMaxWidth k s) <= List.length s)%nat.
Proof.
  revert k. induction s as [|c s IH]; intros k; [simpl; lia|].
  cbn [stripMaxWidth]. destruct k as [|k].
  - destruct (matchMaxWidth (c :: s)) as [[|j]|]; simpl;
      try (specialize (IH 0%nat); lia). specialize (IH j). lia.
  - specialize (IH k). simpl. lia.
Qed.

Lemma stripMaxWidth_skip (l post : jsstring) :
  stripMaxWidth (List.length l) (l ++ post) = stripMaxWidth 0 post.
Proof.
  induction l as [|c l IH]; [reflexivity|]. simpl List.length.
  change ((c :: l) ++ post) with (c :: (l ++ post)).
  cbn [stripMaxWidth]. exact IH.
Qed.

Lemma matchMaxWidth_needs_m (c : N) (s : jsstring) :
  c <> 109%N -> matchMaxWidth (c :: s) = None.
Proof.
  intros H. unfold matchMaxWidth. cbv zeta.
  replace (startsWith (c :: s) (js "max-width:")) with false; [reflexivity|].
  change (js "max-width:") with (109%N :: js "ax-width:").
  cbn [startsWith]. apply N.eqb_neq in H. rewrite N.eqb_sym in H.
  now rewrite H.
Qed.

Lemma cleanSvg_keeps_prefix (pre s : jsstring) :
  ~ In 109%N pre -> cleanSvg (pre ++ s) = pre ++ cleanSvg s.
Proof.
  unfold cleanSvg. induction pre as [|c pre IH]; intros H; [reflexivity|].
  change ((c :: pre) ++ s) with (c :: (pre ++ s)).
  cbn [stripMaxWidth].
  rewrite matchMaxWidth_needs_m by (intros ->; apply H; now left).
  simpl. f_equal. apply IH. intros Hin. apply H. now right.
Qed.

(** X4. Stripping never lengthens the markup, and it returns the markup
    unchanged exactly when no max-width declaration occurs anywhere in
    it. *)
Theorem cleanSvg_unchanged_iff (svg : jsstring) :
  (List.length (cleanSvg svg) <= List.length svg)%nat /\
  (cleanSvg svg = svg <-> ~ hasDeclaration svg).
Proof.
  split; [apply stripMaxWidth_length|].
  unfold cleanSvg, hasDeclaration. induction svg as [|c s IH].
  - split; [|reflexivity]. intros _ (pre & t & E & H).
    symmetry in E. apply app_eq_nil in E as [_ ->]. now apply H.
  - cbn [stripMaxWidth].
    destruct (matchMaxWidth (c :: s)) as [n|] eqn:M.
    + destruct (matchMaxWidth_positive _ _ M) as [k ->].
      split.
      * intros E. exfalso. apply (f_equal (@List.length N)) in E.
        pose proof (stripMaxWidth_length k s). simpl in E. lia.
      * intros H. exfalso. apply H. exists [], (c :: s).
        split; [reflexivity|congruence].
    + split.
      * intros [= E] (pre & t & Es & H).
        destruct pre as [|d pre]; simpl in Es.
        -- subst t. congruence.
        -- injection Es as _ Es. apply IH in E. apply E. now exists pre, t.
      * intros H. f_equal. apply IH. intros (pre & t & Es & Ht).
        apply H. exists (c :: pre), t. split; [simpl; now f_equal|assumption].
Qed.

(** X5. A max-width declaration (the property name, optional white
    space, a non-empty value free of semicolon and double quote, a
    semicolon) is removed whole, and what precedes it is kept, when no
    other declaration can begin before it (here: the text before it has no
    letter m); stripping goes on right after the semicolon. *)
Theorem cleanSvg_removes_declaration (pre ws val post : jsstring) :
  ~ In 109%N pre ->
  whitespaceOnly ws ->
  Forall (fun c => inValueClass c = true) val -> val <> [] ->
  cleanSvg (pre ++ (js "max-width:" ++ ws ++ val ++ [59%N]) ++ post)
  = pre ++ cleanSvg post.
Proof.
  intros Hpre Hws Hval Hne. rewrite cleanSvg_keeps_prefix by assumption.
  f_equal. unfold cleanSvg.
  pose proof (matchMaxWidth_complete ws val post Hws Hval Hne) as M.
  set (decl := js "max-width:" ++ ws ++ val ++ [59%N]) in *.
  assert (E : decl ++ post = js "max-width:" ++ ws ++ val ++ 59%N :: post).
  { unfold decl. now rewrite <- !app_assoc. }
  rewrite <- E in M.
  destruct decl as [|c d] eqn:D; [discriminate|].
  change ((c :: d) ++ post) with (c :: (d ++ post)) in *.
  cbn [stripMaxWidth]. rewrite M. simpl List.length.
  apply stripMaxWidth_skip.
Qed.

Lemma cleanSvg_removes_declaration_witness :
  cleanSvg (js "<svg style='" ++ (js "max-width:" ++ js " " ++ js "640px" ++ [59%N])
               ++ js " color: red'>")
  = js "<svg style=' color: red'>".
Proof.
  rewrite (cleanSvg_removes_declaration
             (js "<svg style='") (js " ") (js "640px") (js " color: red'>")).
  - reflexivity.
  - vm_compute. intuition discriminate.
  - repeat constructor.
  - repeat constructor.
  - discriminate.
Defined.

(** ** Dragging *)

Lemma moveThrough_snoc (pts : list (Q * Q)) (p : Q * Q) (s : Renderer.State) :
  moveThrough (pts ++ [p]) s
  = handleMouseMove (fst p) (snd p) (moveThrough pts s).
Proof. unfold moveThrough. now rewrite fold_left_app. Qed.

Lemma moveThrough_frame (pts : list (Q * Q)) (s : Renderer.State) :
  dragStart (moveThrough pts s) = dragStart s /\
  isDragging (moveThrough pts s) = isDragging s /\
  scale (moveThrough pts s) = scale s /\
  svgContent (moveThrough pts s) = svgContent s.
Proof.
  induction pts as [|p pts IH] using rev_ind; [now repeat split|].
  rewrite moveThrough_snoc. unfold handleMouseMove.
  destruct (isDragging (moveThrough pts s)) eqn:E; simpl; rewrite ?E; exact IH.
Qed.

(** X6. From the press on, the content follows the pointer: after a
    press at (x0, y0) and any number of moves, the offset is the offset
    at the press plus the displacement of the pointer from (x0, y0) to
    its latest position, whatever path it took; the scale and the artifact
    are untouched and the drag is still on. *)
Theorem drag_follows_pointer (s : Renderer.State) (x0 y0 : Q)
        (pts : list (Q * Q)) :
  x (pan (moveThrough pts (handleMouseDown x0 y0 s)))
  == x (pan s) + (fst (last pts (x0, y0)) - x0)
  /\
  y (pan (moveThrough pts (handleMouseDown x0 y0 s)))
  == y (pan s) + (snd (last pts (x0, y0)) - y0)
  /\
  scale (moveThrough pts (handleMouseDown x0 y0 s)) = scale s /\
  svgContent (moveThrough pts (handleMouseDown x0 y0 s)) = svgContent s /\
  isDragging (moveThrough pts (handleMouseDown x0 y0 s)) = true.
Proof.
  destruct (moveThrough_frame pts (handleMouseDown x0 y0 s))
    as (Hd & Hi & Hs & Hv).
  rewrite Hs, Hv, Hi. simpl. repeat split.
  - destruct pts as [|p pts _] using rev_ind; [simpl; ring|].
    rewrite moveThrough_snoc, last_last. unfold handleMouseMove.
    destruct (moveThrough_frame pts (handleMouseDown x0 y0 s))
      as (Hd' & -> & _). simpl. rewrite Hd'. simpl. ring.
  - destruct pts as [|p pts _] using rev_ind; [simpl; ring|].
    rewrite moveThrough_snoc, last_last. unfold handleMouseMove.
    destruct (moveThrough_frame pts (handleMouseDown x0 y0 s))
      as (Hd' & -> & _). simpl. rewrite Hd'. simpl. ring.
Qed.

(** X7. Releasing the button (or leaving the canvas) ends the drag and
    keeps the offset where it is; moves made afterwards, or before any
    press, change nothing at all. *)
Theorem moves_without_drag_do_nothing (s : Renderer.State)
        (pts : list (Q * Q)) :
  pan (handleMouseUp s) = pan s /\
  moveThrough pts (handleMouseUp s) = handleMouseUp s /\
  moveThrough pts Renderer.initial = Renderer.initial /\
  handleMouseUp (handleMouseUp s) = handleMouseUp s.
Proof.
  assert (H : forall t, isDragging t = false -> moveThrough pts t = t).
  { intros t Ht. induction pts as [|p pts IH] using rev_ind; [reflexivity|].
    rewrite moveThrough_snoc, IH. unfold handleMouseMove. now rewrite Ht. }
  repeat split; apply H; reflexivity.
Qed.

(** ** Zooming *)

Ltac name_min_max a b spec t :=
  let m := fresh "m" in
  let E := fresh "E" in
  destruct (spec a b) as [[? E]|[? E]]; set (m := t) in *; clearbody m.

(** Case analysis on every [Qmin] and [Qmax] in sight, then linear
    arithmetic. *)
Ltac by_min_max :=
  repeat match goal with
         | |- context [Qmin ?a ?b] => name_min_max a b Q.min_spec (Qmin a b)
         | |- context [Qmax ?a ?b] => name_min_max a b Q.max_spec (Qmax a b)
         | _ : context [Qmin ?a ?b] |- _ => name_min_max a b Q.min_spec (Qmin a b)
         | _ : context [Qmax ?a ?b] |- _ => name_min_max a b Q.max_spec (Qmax a b)
         end;
  lra.

Lemma div_1_2 (k : Q) : k / 1.2 == k * (5 # 6).
Proof. field. Qed.

(** X8. Within the bounds, the zoom-in button strictly enlarges the
    scale unless it is already 5, where it stays; the zoom-out button
    strictly reduces it unless it is already 0.1, where it stays. *)
Theorem zoom_buttons_strict (k : Q) :
  scaleInBounds k ->
  (k < 5 -> k < zoomInScale k) /\
  (k == 5 -> zoomInScale k == 5) /\
  (0.1 < k -> zoomOutScale k < k) /\
  (k == 0.1 -> zoomOutScale k == 0.1).
Proof.
  unfold scaleInBounds, zoomInScale, zoomOutScale. intros [Hlo Hhi].
  pose proof (div_1_2 k) as D.
  repeat split; intros H; by_min_max.
Qed.

Lemma zoom_buttons_strict_witness : 1 < zoomInScale 1 /\ zoomOutScale 1 < 1.
Proof.
  destruct (zoom_buttons_strict 1 scaleInBounds_one) as (Hin & _ & Hout & _).
  split; [apply Hin|apply Hout]; reflexivity.
Defined.

(** X9. The wheel never zooms the wrong way.  For a scale within the
    bounds, an event with deltaY <= 0 (scrolling up) never reduces the
    scale, one with deltaY >= 0 never enlarges it, and one with deltaY = 0
    leaves it as it is.  The wheel changes the scale only: offset, drag
    state and drawing stay. *)
Theorem wheel_zoom_direction (s : Renderer.State) (deltaY : Q) :
  scaleInBounds (scale s) ->
  (deltaY <= 0 -> scale s <= scale (handleWheel deltaY s)) /\
  (0 <= deltaY -> scale (handleWheel deltaY s) <= scale s) /\
  (deltaY == 0 -> scale (handleWheel deltaY s) == scale s) /\
  pan (handleWheel deltaY s) = pan s /\
  isDragging (handleWheel deltaY s) = isDragging s /\
  dragStart (handleWheel deltaY s) = dragStart s /\
  svgContent (handleWheel deltaY s) = svgContent s.
Proof.
  unfold scaleInBounds. intros [Hlo Hhi].
  cbn [handleWheel setScale scale pan isDragging dragStart svgContent].
  unfold wheelScale. cbv zeta.
  repeat split; try reflexivity; intros H; by_min_max.
Qed.

Lemma wheel_zoom_direction_witness :
  scale Renderer.initial <= scale (handleWheel (-500) Renderer.initial) /\
  scale (handleWheel 500 Renderer.initial) <= scale Renderer.initial.
Proof.
  destruct (wheel_zoom_direction Renderer.initial (-500) scaleInBounds_one)
    as (Hup & _).
  destruct (wheel_zoom_direction Renderer.initial 500 scaleInBounds_one)
    as (_ & Hdown & _).
  split; [apply Hup|apply Hdown]; vm_compute; discriminate.
Defined.

(** With exact arithmetic for [fl], the functions of [Doubles] are the
    ones of [Renderer]. *)
Lemma Doubles_exact (k : Q) :
  Doubles.zoomInScale (fun x => x) k = zoomInScale k /\
  Doubles.zoomOutScale (fun x => x) k = zoomOutScale k.
Proof. split; reflexivity. Qed.

Lemma rounds_between (fl : Q -> Q) (u x : Q) :
  Doubles.roundsWithin fl u -> 1 # 20 <= x -> x <= 8 ->
  x - u * x <= fl x /\ fl x <= x + u * x.
Proof.
  intros R Hlo Hhi. specialize (R x Hlo Hhi).
  apply Qabs_Qle_condition in R as [R1 R2]. split; lra.
Qed.

(** Rounding down to a multiple of 2^-56 has a relative error of at most
    2^-51 on numbers from 1/20 on. *)
Lemma chop_rounds : Doubles.roundsWithin Sample.chop (1 # 2251799813685248).
Proof.
  intros x Hlo Hhi. unfold Sample.chop.
  set (G := 72057594037927936%positive).
  pose proof (Qfloor_le (x * (Zpos G # 1))) as F1.
  pose proof (Qlt_floor (x * (Zpos G # 1))) as F2.
  set (n := Qfloor (x * (Zpos G # 1))) in *.
  assert (E : (n # G) * (Zpos G # 1) == inject_Z n).
  { unfold Qeq, Qmult, inject_Z. cbn [Qnum Qden]. rewrite Pos.mul_1_r. ring. }
  rewrite inject_Z_plus in F2. change (inject_Z 1) with 1 in F2.
  apply Qabs_Qle_condition.
  subst G. split; nra.
Qed.

(** X10. Zooming out and then in, in the doubles of the source.  Let [fl]
    round with a relative error of at most u where the zoom arithmetic
    takes place (u = 2^-53 for doubles), and let the scale s lie between
    the lower bound and 5.  While zooming out stays clear of the lower
    bound, zooming out and then in gives s back up to a relative error of
    2u + u^2: not exactly, two roundings lie in between.  When zooming out
    hits the lower bound, the result is what zooming in makes of that
    bound, whatever s was. *)
Theorem zoomOut_then_zoomIn_in_doubles (fl : Q -> Q) (u s : Q) :
  0 <= u -> u <= 1 # 8 -> Doubles.roundsWithin fl u ->
  fl 0.1 <= s -> s <= 5 ->
  (fl 0.1 <= fl (s / fl 1.2) ->
   Qabs (Doubles.zoomInScale fl (Doubles.zoomOutScale fl s) - s)
   <= (2 * u + u * u) * s) /\
  (fl (s / fl 1.2) <= fl 0.1 ->
   Doubles.zoomInScale fl (Doubles.zoomOutScale fl s)
   = Doubles.zoomInScale fl (fl 0.1)).
Proof.
  intros U0 U1 R Hlo Hhi.
  unfold Doubles.zoomInScale, Doubles.zoomOutScale.
  destruct (rounds_between fl u 1.2 R) as [C1 C2]; [lra|lra|].
  destruct (rounds_between fl u 0.1 R) as [L1 L2]; [lra|lra|].
  set (c := fl 1.2) in *. set (lo := fl 0.1) in *.
  assert (Hc : 0 < c) by nra.
  assert (Et : (s / c) * c == s) by (field; lra).
  set (t := s / c) in *.
  assert (T1 : 1 # 20 <= t) by nra.
  assert (T2 : t <= 8) by nra.
  destruct (rounds_between fl u t R T1 T2) as [Q1 Q2].
  set (q := fl t) in *.
  split.
  - intros Hq.
    pose proof (Q.max_r lo q Hq) as Em.
    set (m := Qmax lo q) in *. clearbody m.
    assert (Z1 : 1 # 20 <= m * c) by nra.
    assert (Z2 : m * c <= 8) by nra.
    destruct (rounds_between fl u (m * c) R Z1 Z2) as [P1 P2].
    set (p := fl (m * c)) in *. clearbody p.
    assert (Ez : m * c == q * c) by (now rewrite Em).
    assert (B1 : s - u * s <= m * c).
    { rewrite Ez, <- Et.
      setoid_replace (t * c - u * (t * c)) with ((t - u * t) * c) by ring.
      apply Qmult_le_compat_r; lra. }
    assert (B2 : m * c <= s + u * s).
    { rewrite Ez, <- Et.
      setoid_replace (t * c + u * (t * c)) with ((t + u * t) * c) by ring.
      apply Qmult_le_compat_r; lra. }
    set (z := m * c) in *. clearbody z.
    assert (S0 : 0 <= s) by lra.
    assert (D1 : (1 - u) * (s - u * s) <= (1 - u) * z)
      by (apply Qmult_le_l; lra).
    assert (D2 : (1 + u) * z <= (1 + u) * (s + u * s))
      by (apply Qmult_le_l; lra).
    assert (D3 : 0 <= u * u * s)
      by (apply Qmult_le_0_compat; [apply Qmult_le_0_compat|]; lra).
    apply Qabs_Qle_condition.
    destruct (Q.min_spec 5 p) as [[H E]|[H E]]; rewrite E; split; lra.
  - intros Hq. f_equal. f_equal. f_equal.
    unfold Qmax, GenericMinMax.gmax.
    destruct (lo ?= q) eqn:D; try reflexivity.
    apply Qlt_alt in D. lra.
Qed.

(** On the toy format the scale 1 comes back as 1 - 2^-56. *)
Lemma zoomOut_then_zoomIn_in_doubles_witness :
  Qabs (Doubles.zoomInScale Sample.chop (Doubles.zoomOutScale Sample.chop 1) - 1)
  <= (2 * (1 # 2251799813685248)
      + (1 # 2251799813685248) * (1 # 2251799813685248)) * 1.
Proof.
  apply (zoomOut_then_zoomIn_in_doubles Sample.chop (1 # 2251799813685248) 1);
    try (vm_compute; discriminate).
  exact chop_rounds.
Defined.

Lemma reachable_scale (apiKey : option jsstring) (a : App.State) :
  reachable apiKey a -> scaleInBounds (scale (renderer a)).
Proof.
  induction 1 as [|a ev _ IH]; [exact scaleInBounds_one|now apply step_scale].
Qed.

(** X11. In every reachable state the percentage shown between the zoom
    buttons lies between 10 and 500; it reads 100 on a fresh page. *)
Theorem zoom_label_range (apiKey : option jsstring) (a : App.State) :
  reachable apiKey a ->
  (10 <= zoomLabel (renderer a) <= 500)%Z /\
  zoomLabel (renderer (init apiKey)) = 100%Z.
Proof.
  intros H. apply reachable_scale in H as [Hlo Hhi].
  split; [|reflexivity]. unfold zoomLabel, Math_round. split.
  - change 10%Z with (Qfloor 10). apply Qfloor_resp_le. lra.
  - change 500%Z with (Qfloor (1001 # 2)). apply Qfloor_resp_le. lra.
Qed.

Lemma zoom_label_range_witness :
  (10 <= zoomLabel (renderer (run Sample.key (List.repeat ClickZoomOut 20)
                                  (init Sample.key))) <= 500)%Z.
Proof.
  apply (zoom_label_range Sample.key).
  simpl. repeat apply reach_step. apply reach_init.
Defined.

(** ** The render effect over time *)

(** The live run is the latest one, started on the current source and
    error. *)
Lemma live_run_is_latest (apiKey : option jsstring) (a : App.State) :
  reachable apiKey a ->
  (forall i r, nth_error (runs a) i = Some r -> isMounted r = true ->
               previewShown (viewMode a) = true /\
               S i = List.length (runs a) /\
               run_code r = code a /\ run_error r = error a /\
               run_compiling r = negb (isBlank (code a)))
  /\
  (previewShown (viewMode a) = true ->
   exists r, latest (runs a) = Some r /\ isMounted r = true).
Proof.
  intros H. apply reachable_flushed in H.
  destruct H as (old & r0 & E & Hold & Hm & Hdeps & Hg). split.
  - intros i r N M. rewrite E in N.
    destruct (Nat.lt_ge_cases i (List.length old)) as [Hlt|Hge].
    + rewrite nth_error_app1 in N by assumption.
      rewrite Forall_forall in Hold. apply nth_error_In, Hold in N.
      unfold unmounted in N. congruence.
    + rewrite nth_error_app2 in N by assumption.
      destruct (i - List.length old)%nat as [|[|n]] eqn:D; simpl in N;
        try discriminate.
      injection N as <-. rewrite Hm in M.
      destruct (Hdeps M) as [Hc He].
      rewrite E, length_app. simpl. repeat split; auto; [lia|].
      rewrite E in Hg. apply Forall_app in Hg as [_ Hg].
      inversion_clear Hg as [|? ? Hr _]. unfold guarded in Hr. now rewrite Hr, Hc.
  - intros P. exists r0. rewrite E, latest_app, Hm. now split.
Qed.

(** X12. In every reachable state at most one execution of the render
    effect is live: the latest one, started on the current source and
    error; every other one has been cleaned up.  There is one while the
    preview is shown and none while it is hidden. *)
Theorem one_live_run (apiKey : option jsstring) (a : App.State) :
  reachable apiKey a ->
  (forall i r, nth_error (runs a) i = Some r -> isMounted r = true ->
               previewShown (viewMode a) = true /\
               S i = List.length (runs a) /\
               run_code r = code a /\ run_error r = error a)
  /\
  (previewShown (viewMode a) = true ->
   exists r, latest (runs a) = Some r /\ isMounted r = true).
Proof.
  intros H. destruct (live_run_is_latest apiKey a H) as [Hlive Hshown].
  split; [|exact Hshown].
  intros i r N M. destruct (Hlive i r N M) as (P & L & C & E & _).
  now repeat split.
Qed.

Lemma one_live_run_witness :
  previewShown (viewMode Sample.failed) = true /\
  (3 = List.length (runs Sample.failed))%nat /\
  run_code (startRun Sample.malformed (Some (js "Parse error on line 2")))
  = code Sample.failed.
Proof.
  destruct (one_live_run Sample.key Sample.failed) as [H _].
  - unfold Sample.failed, run. simpl. repeat apply reach_step. apply reach_init.
  - destruct (H 2%nat (startRun Sample.malformed (Some (js "Parse error on line 2")))
                eq_refl eq_refl) as (P & L & C & _).
    repeat split; assumption.
Defined.

Lemma compiles_after_rerun (rs : list Run) (v : jsstring) (e : option jsstring) :
  List.length (filter run_compiling (cleanupLatest rs ++ [startRun v e]))
  = (List.length (filter run_compiling rs)
     + (if isBlank v then 0 else 1))%nat.
Proof.
  rewrite filter_app, length_app, filter_cleanupLatest.
  cbv [filter startRun run_compiling]. now destruct (isBlank v).
Qed.

(** X13. When the compile of the current run settles, the same source is
    compiled once more exactly when the settlement changes the render
    error (a failure with a message other than the one showing, or a
    success while an error was showing): the run that settled is cleaned
    up and a new one is started on the same source.  When the error stays
    as it is, no run is started. *)
Theorem error_change_recompiles (apiKey : option jsstring) (a : App.State)
        (i : nat) (o : CompileOutcome) :
  reachable apiKey a ->
  current a i ->
  let a' := step apiKey a (RenderSettled i o) in
  code a' = code a /\
  (error a' <> error a ->
   compilesRequested a' = S (compilesRequested a) /\
   stale a' i /\
   latest (runs a') = Some (startRun (code a) (error a'))) /\
  (error a' = error a -> runs a' = runs a).
Proof.
  intros Hreach (r & N & M & C) a'.
  pose proof (reachable_flushed _ _ Hreach) as Hf.
  destruct (proj1 (live_run_is_latest _ _ Hreach) i r N M) as (P & L & Hc & He & Hg).
  destruct Hf as (old & r0 & E & _).
  assert (r0 = r).
  { rewrite E, length_app in L. simpl in L.
    rewrite E, nth_error_app2 in N by lia.
    replace (i - List.length old)%nat with 0%nat in N by lia. now injection N. }
  subst r0. subst a'. unfold step.
  set (h := handle apiKey (RenderSettled i o) a).
  destruct (handle_runs apiKey (RenderSettled i o) a ltac:(discriminate))
    as [Hr Hv]. fold h in Hr, Hv.
  assert (Hch : code h = code a).
  { unfold h. simpl. unfold renderDiagram. rewrite N, C, M.
    destruct o; unfold handleMermaidSuccess, handleMermaidError;
      break_match; reflexivity. }
  destruct (flushEffects_frame h) as (Hfc & Hfe & _).
  rewrite Hfc, Hfe. split; [exact Hch|].
  unfold flushEffects, compilesRequested, stale.
  rewrite Hv, P, Hr, E, latest_app, M, Hc, Hch, eqb_refl, He. simpl.
  destruct (opt_eqb (error a) (error h)) eqn:Q.
  - apply opt_eqb_eq in Q. split; [congruence|]. intros _. now rewrite Hr, E.
  - split; [|intros Q'; rewrite Q' in Q;
             now rewrite (proj2 (opt_eqb_eq _ _) eq_refl) in Q].
    intros _. cbn [runs setRuns].
    rewrite compiles_after_rerun, cleanupLatest_app, latest_app.
    rewrite Hg in C. apply negb_true_iff in C. rewrite C.
    repeat split; [lia|].
    exists (cleanup r). split; [|reflexivity].
    rewrite E, length_app in L. simpl in L.
    rewrite <- app_assoc. rewrite nth_error_app2 by lia.
    now replace (i - List.length old)%nat with 0%nat by lia.
Qed.

Lemma error_change_recompiles_witness :
  compilesRequested
    (step Sample.key
          (run Sample.key [RenderSettled 0 (Rendered Sample.svgA);
                           EditCode Sample.malformed] (init Sample.key))
          (RenderSettled 1 (Threw Sample.parseError)))
  = S (compilesRequested
         (run Sample.key [RenderSettled 0 (Rendered Sample.svgA);
                          EditCode Sample.malformed] (init Sample.key))).
Proof.
  destruct (error_change_recompiles Sample.key
              (run Sample.key [RenderSettled 0 (Rendered Sample.svgA);
                               EditCode Sample.malformed] (init Sample.key))
              1 (Threw Sample.parseError)) as (_ & H & _).
  - simpl. repeat apply reach_step. apply reach_init.
  - eexists. vm_compute. repeat split.
  - apply H. vm_compute. discriminate.
Defined.

(** X14. While the editor-only layout is on, the renderer is off the
    page: no compile result and no pan or zoom event has any effect. *)
Theorem editor_only_ignores_renderer (apiKey : option jsstring) (a : App.State) :
  reachable apiKey a ->
  viewMode a = EDITOR ->
  (forall i o, step apiKey a (RenderSettled i o) = a) /\
  (forall ev,
      In ev [MouseUp; MouseLeave; ClickZoomIn; ClickZoomOut; ClickResetView;
             ClickAutoFix] ->
      step apiKey a ev = a) /\
  (forall q1 q2, step apiKey a (MouseDown q1 q2) = a /\
                 step apiKey a (MouseMove q1 q2) = a /\
                 step apiKey a (Wheel q1) = a).
Proof.
  intros Hreach Hv.
  pose proof (reachable_flushed _ _ Hreach) as Hf.
  pose proof (flushed_fixed _ Hf) as Hfix.
  assert (Hno : forall i r, nth_error (runs a) i = Some r -> isMounted r = false).
  { intros i r N. destruct (isMounted r) eqn:M; [|reflexivity].
    destruct (proj1 (live_run_is_latest _ _ Hreach) i r N M) as (P & _).
    rewrite Hv in P. discriminate. }
  split; [|split].
  - intros i o. unfold step. simpl. unfold renderDiagram.
    destruct (nth_error (runs a) i) as [r|] eqn:N; [|exact Hfix].
    rewrite (Hno i r N). now destruct (run_compiling r), o.
  - intros ev Hin. simpl in Hin.
    unfold step. decompose [or] Hin; subst; try contradiction;
      simpl; unfold onRenderer; rewrite Hv; simpl; exact Hfix.
  - intros q1 q2. unfold step. simpl. unfold onRenderer. rewrite Hv. simpl.
    auto.
Qed.

Lemma editor_only_ignores_renderer_witness :
  step Sample.key (step Sample.key (init Sample.key) (ClickViewMode EDITOR))
       (RenderSettled 0 (Rendered Sample.svgA))
  = step Sample.key (init Sample.key) (ClickViewMode EDITOR).
Proof.
  destruct (editor_only_ignores_renderer Sample.key
              (step Sample.key (init Sample.key) (ClickViewMode EDITOR)))
    as (H & _).
  - repeat apply reach_step. apply reach_init.
  - reflexivity.
  - apply H.
Defined.

(** X15. Leaving the preview for the editor-only layout and coming back
    mounts a fresh renderer: the artifact is gone and the viewport is
    back to offset (0,0) and scale 1, every earlier run is cleaned up, and
    the current source is compiled anew (unless it is blank); source,
    error and log are untouched.  Switching between the two layouts that
    show the preview changes nothing but the layout. *)
Theorem remount_starts_over (apiKey : option jsstring) (a : App.State)
        (m : ViewMode) :
  reachable apiKey a ->
  previewShown (viewMode a) = true ->
  previewShown m = true ->
  let b := step apiKey (step apiKey a (ClickViewMode EDITOR)) (ClickViewMode m) in
  (renderer b = Renderer.initial /\
   code b = code a /\ error b = error a /\ logs b = logs a /\
   (forall i, (i < List.length (runs a))%nat -> stale b i) /\
   latest (runs b) = Some (startRun (code a) (error a)) /\
   compilesRequested b
   = (compilesRequested a + (if isBlank (code a) then 0 else 1))%nat)
  /\
  (renderer (step apiKey a (ClickViewMode m)) = renderer a /\
   runs (step apiKey a (ClickViewMode m)) = runs a).
Proof.
  intros Hreach P Pm b.
  pose proof (reachable_flushed _ _ Hreach) as Hf.
  destruct Hf as (old & r & E & Hold & Hm & Hdeps & Hg).
  rewrite P in Hm. destruct (Hdeps P) as [Hc He].
  split.
  - assert (E1 : step apiKey a (ClickViewMode EDITOR)
                 = setViewMode EDITOR
                     (setRenderer Renderer.initial
                        (setRuns (old ++ [cleanup r]) a))).
    { unfold step. cbn [handle]. unfold switchView. rewrite P.
      cbn [previewShown]. unfold flushEffects.
      cbn [viewMode setViewMode previewShown].
      now rewrite E, cleanupLatest_app. }
    subst b. rewrite E1. unfold step. cbn [handle]. unfold switchView.
    cbn [viewMode setViewMode previewShown]. rewrite Pm.
    unfold flushEffects.
    cbn [viewMode setViewMode setRenderer setRuns runs code error].
    rewrite Pm, latest_app. cbn [isMounted cleanup andb].
    cbn [renderer logs code error runs setRuns setViewMode setRenderer].
    rewrite cleanupLatest_app, latest_app.
    unfold compilesRequested. cbn [runs setRuns].
    assert (Hcc : cleanup (cleanup r) = cleanup r) by reflexivity.
    rewrite Hcc.
    replace (old ++ [cleanup r]) with (cleanupLatest (old ++ [r]))
      by apply cleanupLatest_app.
    rewrite compiles_after_rerun, cleanupLatest_app, E.
    repeat split.
    intros i Hi. rewrite length_app in Hi. simpl in Hi.
    unfold stale. cbn [runs setRuns].
    rewrite nth_error_app1 by (rewrite length_app; simpl; lia).
    destruct (Nat.lt_ge_cases i (List.length old)) as [Hlt|Hge].
    + rewrite nth_error_app1 by assumption.
      destruct (nth_error old i) as [r'|] eqn:N;
        [|apply nth_error_None in N; lia].
      exists r'. split; [reflexivity|].
      rewrite Forall_forall in Hold. apply Hold. eapply nth_error_In, N.
    + rewrite nth_error_app2 by assumption.
      replace (i - List.length old)%nat with 0%nat by lia.
      now exists (cleanup r).
  - unfold step. simpl handle. unfold switchView. rewrite P, Pm.
    unfold flushEffects. cbn [viewMode setViewMode runs code error].
    rewrite Pm, E, latest_app, Hm, Hc, He, eqb_refl.
    rewrite (proj2 (opt_eqb_eq _ _) eq_refl). simpl. now rewrite E.
Qed.

Lemma remount_starts_over_witness :
  svgContent (renderer
    (step Sample.key (step Sample.key Sample.failed (ClickViewMode EDITOR))
          (ClickViewMode PREVIEW))) = []
  /\
  svgContent (renderer Sample.failed) <> [].
Proof.
  destruct (remount_starts_over Sample.key Sample.failed PREVIEW)
    as ((H & _) & _); try reflexivity.
  - unfold Sample.failed, run. simpl. repeat apply reach_step. apply reach_init.
  - split; [now rewrite H|]. vm_compute. discriminate.
Defined.

(** ** The log *)

Ltac solve_extends :=
  first [ exists []; symmetry; apply app_nil_r
        | eexists; reflexivity
        | eexists; rewrite <- app_assoc; reflexivity ].

Lemma handle_extends_log (apiKey : option jsstring) (ev : Event) (a : App.State) :
  ev <> ClickClear -> extends (logs a) (logs (handle apiKey ev a)).
Proof.
  intros Hev. unfold extends.
  destruct ev; try congruence;
    unfold_handlers; break_match; simpl; solve_extends.
Qed.

(** X16. The log only grows: every event but a press on Clear leaves the
    entries already logged in place and in order, new ones being added at
    the end; Clear empties it. *)
Theorem log_append_only (apiKey : option jsstring) (a : App.State) (ev : Event) :
  ev <> ClickClear ->
  extends (logs a) (logs (step apiKey a ev)) /\
  logs (step apiKey a ClickClear) = [].
Proof.
  intros Hev. unfold step. split.
  - destruct (flushEffects_frame (handle apiKey ev a)) as (_ & _ & -> & _).
    now apply handle_extends_log.
  - destruct (flushEffects_frame (handle apiKey ClickClear a)) as (_ & _ & -> & _).
    reflexivity.
Qed.

Lemma log_append_only_witness :
  extends (logs Sample.failed) (logs (step Sample.key Sample.failed ClickAutoFix)).
Proof.
  apply (log_append_only Sample.key Sample.failed ClickAutoFix). discriminate.
Defined.

Lemma handle_levels (apiKey : option jsstring) (ev : Event) (a : App.State) :
  Forall (fun e => level e <> WARNING) (logs a) ->
  Forall (fun e => level e <> WARNING) (logs (handle apiKey ev a)).
Proof.
  intros H.
  destruct ev; unfold_handlers; break_match; simpl;
    repeat (apply Forall_app; split); auto; repeat constructor; discriminate.
Qed.

(** X17. No entry at level WARNING is ever logged: in every reachable
    state each entry of the log is an INFO, a SUCCESS or an ERROR. *)
Theorem never_logs_warning (apiKey : option jsstring) (a : App.State) :
  reachable apiKey a -> Forall (fun e => level e <> WARNING) (logs a).
Proof.
  induction 1 as [|a ev _ IH].
  - unfold init. simpl. destruct (Gemini.isAIEnabled apiKey);
      repeat constructor; discriminate.
  - unfold step.
    destruct (flushEffects_frame (handle apiKey ev a)) as (_ & _ & -> & _).
    now apply handle_levels.
Qed.

Lemma never_logs_warning_witness :
  Forall (fun e => level e <> WARNING) (logs Sample.fixing).
Proof.
  apply (never_logs_warning Sample.key).
  unfold Sample.fixing, Sample.failed, run. simpl.
  repeat apply reach_step. apply reach_init.
Defined.

(** ** Without a key *)

(** X18. When no usable key is configured, nothing of the generative
    features ever happens: in every reachable state no service call has
    been made, [isProcessing] is false, the prompt bar is closed and empty;
    and the only event that can change the source is typing in the
    editor. *)
Theorem offline_mode_is_inert (apiKey : option jsstring) (a : App.State) :
  Gemini.isAIEnabled apiKey = false ->
  reachable apiKey a ->
  (calls a = [] /\ isProcessing a = false /\
   showPromptInput a = false /\ prompt a = []) /\
  (forall ev, code (step apiKey a ev) <> code a -> exists v, ev = EditCode v).
Proof.
  intros Hoff Hreach.
  assert (Inv : calls a = [] /\ isProcessing a = false /\
                showPromptInput a = false /\ prompt a = []).
  { induction Hreach as [|a ev _ IH]; [now repeat split|].
    destruct IH as (Hc & Hp & Hs & Hpr). unfold step.
    destruct (flushEffects_frame (handle apiKey ev a))
      as (_ & _ & _ & _ & _ & -> & ->).
    assert (Hf : showPromptInput (flushEffects (handle apiKey ev a))
                 = showPromptInput (handle apiKey ev a)
                 /\ prompt (flushEffects (handle apiKey ev a))
                    = prompt (handle apiKey ev a))
      by (unfold flushEffects; break_match; now split).
    destruct Hf as [-> ->].
    destruct ev; simpl; rewrite ?Hoff, ?andb_false_r, ?Hs; simpl;
      unfold_handlers; rewrite ?Hc; break_match; simpl; repeat split; auto.
    all: destruct call; reflexivity. }
  split; [exact Inv|].
  destruct Inv as (Hc & Hp & Hs & Hpr).
  intros ev Hne. unfold step in Hne.
  destruct (flushEffects_frame (handle apiKey ev a)) as (Hcode & _).
  rewrite Hcode in Hne.
  destruct ev as [v| | | | | | | | | | | | | | | | | | |];
    [now exists v|..]; exfalso; apply Hne; simpl;
    rewrite ?Hoff, ?andb_false_r, ?Hs; simpl;
    unfold_handlers; rewrite ?Hc;
    try match goal with
        | |- context [nth_error [] ?k] => destruct k; cbn [nth_error]
        end;
    break_match; reflexivity.
Qed.

Lemma offline_mode_is_inert_witness :
  calls (run None [RenderSettled 0 (Threw Sample.parseError);
                   ClickAutoFix; ClickFixWithAI; ClickGenerate; ClickCreate]
             (init None)) = [].
Proof.
  apply (offline_mode_is_inert None).
  - reflexivity.
  - simpl. repeat apply reach_step. apply reach_init.
Defined.

(** ** Calls in flight *)

Lemma outstanding_settle (k : nat) (cs : list ServiceCall) (c : ServiceCall) :
  nth_error cs k = Some c -> call_settled c = false ->
  S (List.length (filter (fun c => negb (call_settled c)) (settle k cs)))
  = List.length (filter (fun c => negb (call_settled c)) cs).
Proof.
  revert k. induction cs as [|d cs IH]; intros [|k] N S; simpl in *;
    try discriminate.
  - injection N as ->. now rewrite S.
  - destruct (negb (call_settled d)); simpl; now rewrite (IH k N S).
Qed.

Lemma handle_calls_frame (apiKey : option jsstring) (ev : Event) (a : App.State) :
  touchesCalls ev = false ->
  calls (handle apiKey ev a) = calls a /\
  isProcessing (handle apiKey ev a) = isProcessing a.
Proof.
  intros T. destruct ev; try discriminate T;
    unfold_handlers; break_match; split; reflexivity.
Qed.

Lemma handle_singleFlight (apiKey : option jsstring) (ev : Event) (a : App.State) :
  ev <> ClickAutoFix -> singleFlight a -> singleFlight (handle apiKey ev a).
Proof.
  unfold singleFlight, outstanding. intros Hev I.
  destruct (touchesCalls ev) eqn:T;
    [|destruct (handle_calls_frame apiKey ev a T) as [-> ->]; exact I].
  destruct ev; try discriminate T; try congruence; simpl.
  - (* the header button *)
    destruct (Gemini.isAIEnabled apiKey) eqn:A; [|simpl; exact I].
    destruct (opt_truthy (error a)) eqn:Tr; [|simpl; exact I].
    destruct (isProcessing a) eqn:P; [simpl; rewrite ?P; exact I|]. simpl.
    unfold handleFix. destruct (error a) as [err|]; [|discriminate].
    simpl in Tr. rewrite Tr. simpl.
    unfold Gemini.fixMermaidCode, Gemini.ai_is_null. rewrite A. simpl.
    rewrite filter_app, length_app, I. reflexivity.
  - (* Enter in the prompt *)
    destruct (Gemini.isAIEnabled apiKey) eqn:A;
      rewrite ?andb_false_r; [|simpl; exact I].
    destruct (showPromptInput a); [|simpl; exact I].
    destruct (isProcessing a) eqn:P; [simpl; rewrite ?P; exact I|]. simpl.
    unfold handleGenerate. destruct (truthy (trim (prompt a))); [|simpl; rewrite P; exact I].
    simpl. unfold Gemini.generateMermaidCode, Gemini.ai_is_null. rewrite A. simpl.
    rewrite filter_app, length_app, I. reflexivity.
  - (* Create *)
    destruct (Gemini.isAIEnabled apiKey) eqn:A;
      rewrite ?andb_false_r; [|simpl; exact I].
    destruct (showPromptInput a); [|simpl; exact I].
    destruct (isProcessing a) eqn:P; [simpl; rewrite ?P; exact I|]. simpl.
    unfold handleGenerate. destruct (truthy (trim (prompt a))); [|simpl; rewrite P; exact I].
    simpl. unfold Gemini.generateMermaidCode, Gemini.ai_is_null. rewrite A. simpl.
    rewrite filter_app, length_app, I. reflexivity.
  - (* a call settles *)
    unfold serviceSettled.
    destruct (nth_error (calls a) call) as [c|] eqn:N; [|exact I].
    destruct (call_settled c) eqn:S; [exact I|].
    pose proof (outstanding_settle _ _ _ N S) as L.
    assert (P : isProcessing a = true)
      by (destruct (isProcessing a); [reflexivity|rewrite I in L; discriminate]).
    rewrite P in I. rewrite I in L. injection L as L.
    unfold handleGenerate_resume, handleFix_resume, handleGenerate_catch,
      handleFix_catch, addLog.
    destruct (call_request c), (Gemini.resume r); simpl; exact L.
Qed.

(** X19. As long as the Auto-Fix button of the error toast is left
    alone, service calls are single-flight: after any sequence of events
    without it, at most one call is outstanding, and [isProcessing] is
    true exactly while one is. *)
Theorem single_flight_without_autofix (apiKey : option jsstring)
        (evs : list Event) :
  noAutoFix evs ->
  (List.length (outstanding (run apiKey evs (init apiKey))) <= 1)%nat /\
  (isProcessing (run apiKey evs (init apiKey)) = true <->
   outstanding (run apiKey evs (init apiKey)) <> []).
Proof.
  intros Hevs.
  assert (I : singleFlight (run apiKey evs (init apiKey))).
  { assert (I0 : singleFlight (init apiKey)) by reflexivity.
    revert I0. generalize (init apiKey).
    induction Hevs as [|ev evs Hev _ IH]; intros a I; [exact I|].
    simpl. apply IH. unfold step, singleFlight, outstanding.
    destruct (flushEffects_frame (handle apiKey ev a))
      as (_ & _ & _ & _ & _ & -> & ->).
    now apply handle_singleFlight. }
  unfold singleFlight in I.
  destruct (isProcessing (run apiKey evs (init apiKey))); rewrite I; split;
    try lia.
  - split; [|reflexivity]. intros _ E. rewrite E in I. discriminate.
  - split; [discriminate|]. intros H.
    destruct (outstanding (run apiKey evs (init apiKey))); [congruence|discriminate].
Qed.

Lemma single_flight_without_autofix_witness :
  (List.length
     (outstanding
        (run Sample.key
             [RenderSettled 0 (Threw Sample.parseError);
              ClickFixWithAI; ClickFixWithAI; ClickGenerate; ClickCreate]
             (init Sample.key))) <= 1)%nat.
Proof.
  apply (single_flight_without_autofix Sample.key).
  repeat constructor; discriminate.
Defined.

(** ** The correction loop and generation *)

(** X20. When an outstanding fix request is answered, the cleaned text
    becomes the source, [isProcessing] goes back to false and a Fix
    Applied entry is logged, but the render error is left showing: only a
    later compile can clear it.  If the text differs from the old source
    and the preview is shown, every earlier run is cleaned up and a new
    one is started on the new text. *)
Theorem fix_applied_effects (apiKey : option jsstring) (a : App.State)
        (k : nat) (c : ServiceCall) (text : option jsstring) :
  reachable apiKey a ->
  nth_error (calls a) k = Some c ->
  call_settled c = false ->
  isFixRequest c = true ->
  let fixedCode := Gemini.cleanResponse (or_else text []) in
  let a' := step apiKey a (ServiceSettled k (Gemini.Responded text)) in
  code a' = fixedCode /\
  error a' = error a /\
  isProcessing a' = false /\
  renderer a' = renderer a /\
  logs a' = logs a ++ [mkLog SUCCESS (js "Fix Applied")
                             (Some (js "The AI has updated the code. Verifying render..."))] /\
  (fixedCode <> code a -> previewShown (viewMode a) = true ->
   latest (runs a') = Some (startRun fixedCode (error a)) /\
   forall i, (i < List.length (runs a))%nat -> stale a' i).
Proof.
  intros Hreach N S F fixedCode a'.
  assert (Hh : handle apiKey (ServiceSettled k (Gemini.Responded text)) a
               = setIsProcessing false
                   (addLog SUCCESS (js "Fix Applied")
                      (Some (js "The AI has updated the code. Verifying render..."))
                      (setCode fixedCode (setCalls (settle k (calls a)) a)))).
  { simpl. unfold serviceSettled. rewrite N, S.
    unfold isFixRequest in F. destruct (call_request c); [discriminate|].
    reflexivity. }
  subst a'. unfold step.
  destruct (flushEffects_frame
              (handle apiKey (ServiceSettled k (Gemini.Responded text)) a))
    as (Hc & He & Hl & Hr & _ & _ & Hp).
  rewrite Hc, He, Hl, Hr, Hp, Hh.
  do 5 (split; [reflexivity|]).
  intros Hne P.
  assert (Hcode : code (step apiKey a (ServiceSettled k (Gemini.Responded text)))
                  <> code a).
  { unfold step. rewrite Hc, Hh. exact Hne. }
  split.
  - pose proof (reachable_flushed _ _ Hreach) as (old & r & E & _ & Hm & Hdeps & _).
    destruct (Hdeps P) as [Hrc _]. rewrite P in Hm.
    unfold flushEffects. cbn [viewMode setIsProcessing addLog setLogs setCode setCalls runs code error].
    rewrite P, E, latest_app, Hm, Hrc.
    replace (eqb (code a) fixedCode) with false
      by (symmetry; apply eqb_neq; congruence).
    simpl. now rewrite cleanupLatest_app, latest_app.
  - intros i Hi. rewrite <- Hh.
    apply (source_change_supersedes apiKey a _ i
             (reachable_flushed _ _ Hreach) Hcode Hi).
Qed.

Lemma fix_applied_effects_witness :
  code (step Sample.key Sample.fixing
             (ServiceSettled 0 (Gemini.Responded (Some (js "```
graph TD
A-->B
```")))))
  = js "graph TD
A-->B"
  /\
  error (step Sample.key Sample.fixing
              (ServiceSettled 0 (Gemini.Responded (Some (js "```
graph TD
A-->B
```")))))
  = Some (js "Parse error on line 2").
Proof.
  destruct (fix_applied_effects Sample.key Sample.fixing 0
              (mkCall (Gemini.FixRequest Sample.malformed
                                         (js "Parse error on line 2")) false)
              (Some (js "```
graph TD
A-->B
```")))
    as (Hc & He & _); try reflexivity.
  - unfold Sample.fixing, Sample.failed, run. simpl.
    repeat apply reach_step. apply reach_init.
  - split; [rewrite Hc|rewrite He]; reflexivity.
Defined.

Lemma fix_buttons_without_error (apiKey : option jsstring) (a : App.State) :
  effectsFlushed a ->
  opt_truthy (error a) = false ->
  handleFix apiKey a = a /\
  step apiKey a ClickFixWithAI = a /\
  step apiKey a ClickAutoFix = a.
Proof.
  intros Hf T. pose proof (flushed_fixed _ Hf) as Hfix.
  repeat split.
  - unfold handleFix. destruct (error a) as [e|]; [|reflexivity].
    simpl in T. now rewrite T.
  - unfold step. simpl. rewrite T. simpl. rewrite andb_false_r. exact Hfix.
  - unfold step. simpl. rewrite T. rewrite andb_false_r. exact Hfix.
Qed.

(** X21. With no error showing (none, or one whose message is empty)
    the correction loop cannot be entered: [handleFix] returns at once and
    a press on either fix button leaves the state as it is, with no log
    entry and no call. *)
Theorem fix_needs_an_error (apiKey : option jsstring) (a : App.State) :
  reachable apiKey a ->
  opt_truthy (error a) = false ->
  handleFix apiKey a = a /\
  step apiKey a ClickFixWithAI = a /\
  step apiKey a ClickAutoFix = a.
Proof.
  intros Hreach T.
  apply fix_buttons_without_error; [exact (reachable_flushed apiKey a Hreach)|exact T].
Qed.

Lemma fix_needs_an_error_witness :
  step Sample.key (init Sample.key) ClickAutoFix = init Sample.key.
Proof.
  apply (fix_needs_an_error Sample.key (init Sample.key)).
  - apply reach_init.
  - reflexivity.
Defined.

(** X22. When an outstanding generation request settles, [isProcessing]
    goes back to false and the render error is not touched.  On an answer
    the cleaned text becomes the source, the prompt is emptied and the
    prompt bar closed; on an exception the source, the prompt and the
    prompt bar are left as they are (the request can be sent again) and a
    Generation Failed entry carries the exception's message. *)
Theorem generate_outcomes (apiKey : option jsstring) (a : App.State)
        (k : nat) (c : ServiceCall) (r : Gemini.ServiceResult) :
  nth_error (calls a) k = Some c ->
  call_settled c = false ->
  isFixRequest c = false ->
  let a' := step apiKey a (ServiceSettled k r) in
  isProcessing a' = false /\
  error a' = error a /\
  match r with
  | Gemini.Responded text =>
      code a' = Gemini.cleanResponse (or_else text []) /\
      prompt a' = [] /\ showPromptInput a' = false /\
      logs a' = logs a ++ [mkLog SUCCESS (js "Generation Complete") None]
  | Gemini.ServiceThrew e =>
      code a' = code a /\
      prompt a' = prompt a /\ showPromptInput a' = showPromptInput a /\
      logs a' = logs a ++ [mkLog ERROR (js "Generation Failed")
                                 (Some (or_else (message_of e) (js "Unknown error")))]
  end.
Proof.
  intros N S F a'. subst a'. unfold step.
  set (h := handle apiKey (ServiceSettled k r) a).
  destruct (flushEffects_frame h) as (Hc & He & Hl & _ & _ & _ & Hp).
  assert (Hf : showPromptInput (flushEffects h) = showPromptInput h
               /\ prompt (flushEffects h) = prompt h)
    by (unfold flushEffects; break_match; now split).
  destruct Hf as [Hs Hpr].
  assert (Hh : h = match r with
                   | Gemini.Responded text =>
                       handleGenerate_resume r (setCalls (settle k (calls a)) a)
                   | Gemini.ServiceThrew e =>
                       handleGenerate_catch e (setCalls (settle k (calls a)) a)
                   end).
  { unfold h. simpl. unfold serviceSettled. rewrite N, S.
    unfold isFixRequest in F. destruct (call_request c); [|discriminate].
    now destruct r. }
  destruct r as [text|e]; rewrite Hc, He, Hl, Hp, Hs, Hpr, Hh; simpl;
    repeat split.
Qed.

Lemma generate_outcomes_witness :
  prompt (step Sample.key
               (run Sample.key [ClickGenerate; EditPrompt (js "login flow");
                                ClickCreate] (init Sample.key))
               (ServiceSettled 0 (Gemini.ServiceThrew (ThrowError (js "429")))))
  = js "login flow".
Proof.
  destruct (generate_outcomes Sample.key
              (run Sample.key [ClickGenerate; EditPrompt (js "login flow");
                               ClickCreate] (init Sample.key))
              0 (mkCall (Gemini.GenerateRequest (js "login flow") Auto) false)
              (Gemini.ServiceThrew (ThrowError (js "429"))))
    as (_ & _ & _ & H & _); [reflexivity|reflexivity|reflexivity|].
  rewrite H. reflexivity.
Defined.

(** ** What is put on the page *)

(** X23. The error toast shows the whole message when it has at most
    150 code units, and otherwise its first 150 followed by three dots:
    never more than 153.  The context logged by [handleFix] is the first
    hundred code units between fixed words, dots included even when
    nothing was cut. *)
Theorem toast_text_bounded (error : jsstring) :
  (List.length (toastText error) <= 153)%nat /\
  ((List.length error <= 150)%nat -> toastText error = error) /\
  ((150 < List.length error)%nat ->
   toastText error = firstn 150 error ++ js "...") /\
  (List.length (fixContext error) <= 118)%nat /\
  ((List.length error <= 100)%nat ->
   fixContext error = js "Error context: " ++ error ++ js "...").
Proof.
  unfold toastText, fixContext, substring0.
  assert (Hctx : (List.length (js "Error context: " ++ firstn 100 error ++ js "...")
                  <= 118)%nat).
  { rewrite !length_app, length_firstn.
    change (List.length (js "Error context: ")) with 15%nat.
    change (List.length (js "...")) with 3%nat. lia. }
  assert (Hshort : (List.length error <= 100)%nat ->
                   js "Error context: " ++ firstn 100 error ++ js "..."
                   = js "Error context: " ++ error ++ js "...").
  { intros H. now rewrite firstn_all2. }
  destruct (Nat.ltb 150 (List.length error)) eqn:L.
  - apply Nat.ltb_lt in L.
    split; [rewrite length_app, length_firstn;
            change (List.length (js "...")) with 3%nat; lia|].
    split; [intros H; lia|]. split; [reflexivity|]. now split.
  - apply Nat.ltb_ge in L.
    split; [rewrite length_app, length_firstn;
            change (List.length (@nil N)) with 0%nat; lia|].
    split; [intros _; rewrite app_nil_r; now apply firstn_all2|].
    split; [intros H; lia|]. now split.
Qed.

(** ** A failure without a message *)

(** X25. The message drawn from a thrown value is empty exactly for a
    thrown empty string and for an Error whose message is empty.  When
    the current compile fails that way, the failure is logged, but the
    error state is the empty string, which counts as no error: the toast
    is not shown and neither fix button does anything. *)
Theorem empty_message_failure_is_silent (apiKey : option jsstring)
        (a : App.State) (i : nat) (e : Thrown) :
  reachable apiKey a ->
  current a i ->
  errorMessage e = [] ->
  let a' := step apiKey a (RenderSettled i (Threw e)) in
  (e = ThrowString [] \/ e = ThrowError []) /\
  error a' = Some [] /\
  logs a' = logs a ++ [mkLog ERROR (js "Rendering Failed") (Some [])] /\
  toastShown a' = false /\
  step apiKey a' ClickFixWithAI = a' /\
  step apiKey a' ClickAutoFix = a'.
Proof.
  intros Hreach (r & N & M & C) Hm a'.
  assert (He : error a' = Some [] /\
               logs a' = logs a ++ [mkLog ERROR (js "Rendering Failed") (Some [])]).
  { subst a'. unfold step.
    destruct (flushEffects_frame (handle apiKey (RenderSettled i (Threw e)) a))
      as (_ & -> & -> & _).
    simpl. unfold renderDiagram. rewrite N, C, M, Hm. simpl. auto. }
  destruct He as [He Hl].
  assert (Hf : effectsFlushed a')
    by (apply step_flushed; exact (reachable_flushed apiKey a Hreach)).
  assert (T : opt_truthy (error a') = false) by now rewrite He.
  destruct (fix_buttons_without_error apiKey a' Hf T) as (_ & H1 & H2).
  repeat split; auto.
  - destruct e as [s|m|m [s|]]; simpl in Hm; subst; auto.
    + destruct (truthy s) eqn:Ts; [subst; discriminate|discriminate].
    + discriminate.
  - unfold toastShown. rewrite T. apply andb_false_r.
Qed.

Lemma empty_message_failure_is_silent_witness :
  step Sample.key
       (step Sample.key (init Sample.key) (RenderSettled 0 (Threw (ThrowError []))))
       ClickAutoFix
  = step Sample.key (init Sample.key) (RenderSettled 0 (Threw (ThrowError []))).
Proof.
  apply (empty_message_failure_is_silent Sample.key (init Sample.key) 0
           (ThrowError [])).
  - apply reach_init.
  - eexists. vm_compute. repeat split.
  - reflexivity.
Defined.

(** ** Entering the correction loop *)

(** X24. A press on Auto-Fix while an error is showing and a key is
    configured sets [isProcessing], logs an INFO entry whose details are
    the first hundred code units of the error, and sends the service the
    current source together with the whole error message, not the
    shortened one; source and error are left as they are. *)
Theorem fix_request_contents (apiKey : option jsstring) (a : App.State)
        (err : jsstring) :
  Gemini.isAIEnabled apiKey = true ->
  previewShown (viewMode a) = true ->
  error a = Some err -> err <> [] ->
  let a' := step apiKey a ClickAutoFix in
  calls a' = calls a ++ [mkCall (Gemini.FixRequest (code a) err) false] /\
  isProcessing a' = true /\
  logs a' = logs a ++ [mkLog INFO (js "AI Attempting to Fix Syntax...")
                             (Some (fixContext err))] /\
  code a' = code a /\ error a' = error a.
Proof.
  intros A P E Hne a'. subst a'. unfold step.
  destruct (flushEffects_frame (handle apiKey ClickAutoFix a))
    as (-> & -> & -> & _ & _ & -> & ->).
  simpl. rewrite P, E, A. destruct err as [|c err]; [congruence|].
  simpl. unfold handleFix. rewrite E. simpl.
  unfold Gemini.fixMermaidCode, Gemini.ai_is_null. rewrite A. simpl.
  repeat split; try reflexivity. congruence.
Qed.

Lemma fix_request_contents_witness :
  calls Sample.fixing
  = [mkCall (Gemini.FixRequest Sample.malformed (js "Parse error on line 2"))
            false].
Proof.
  apply (fix_request_contents Sample.key Sample.failed
           (js "Parse error on line 2")); try reflexivity.
  discriminate.
Defined.

(** ** Resetting the view *)

(** X26. Reset View puts the offset at (0,0) and the scale at 1 exactly,
    whatever they were, and touches nothing else; doing it twice is doing
    it once.  It does not end a drag in progress: the anchor of the drag
    is kept, so the next move places the content where it would have been
    without the reset (only the scale stays reset). *)
Theorem resetView_properties (s : Renderer.State) (clientX clientY : Q) :
  pan (resetView s) = mkPoint 0 0 /\
  scale (resetView s) = 1 /\
  svgContent (resetView s) = svgContent s /\
  isDragging (resetView s) = isDragging s /\
  dragStart (resetView s) = dragStart s /\
  resetView (resetView s) = resetView s /\
  (isDragging s = true ->
   pan (handleMouseMove clientX clientY (resetView s))
   = pan (handleMouseMove clientX clientY s) /\
   scale (handleMouseMove clientX clientY (resetView s)) = 1).
Proof.
  do 6 (split; [reflexivity|]).
  intros D. unfold handleMouseMove. simpl. rewrite D. simpl. now split.
Qed.

Lemma resetView_properties_witness :
  pan (handleMouseMove 30 40
         (resetView (handleMouseMove 10 10 (handleMouseDown 0 0 Renderer.initial))))
  = pan (handleMouseMove 30 40
           (handleMouseMove 10 10 (handleMouseDown 0 0 Renderer.initial))).
Proof.
  apply (resetView_properties
           (handleMouseMove 10 10 (handleMouseDown 0 0 Renderer.initial)) 30 40).
  reflexivity.
Defined.
